(** * cablorg: the particle field and the cursor follower of [main.js]

    A shallow embedding of sections 3 and 4 of [src/main.js]
    ([setupCustomCursor] and [setupParticleCanvas]).

    JavaScript numbers are kept abstract behind the interface [Number]:
    the code is translated once, over any instance.  Three instances
    are given: the real numbers, the exact arithmetic in which the
    numeric properties are stated and proved; the real numbers with
    checked division, which make a division by zero visible; and
    IEEE-754 binary64 ([PrimFloat]), the arithmetic the program runs
    on, on which the embedding can be evaluated.  Rounding is outside
    the statements over the real numbers.

    The definitions come first: numbers, data, [Particle.update], the
    particle field with its timers and events, the cursor follower.
    The properties follow, C1 to C10. *)

From Stdlib Require Import ZArith List Bool Lia.
From Stdlib Require Import Reals Lra.
From Stdlib Require Import Floats.
From Stdlib Require String.
Import String.StringSyntax.
Import ListNotations.

Set Implicit Arguments.

(* ================================================================== *)
(** ** JavaScript numbers *)

(** The operations of the language and of [Math] that the two functions
    use.  [lit n d] is the decimal literal whose value is [n / d]
    ([0.97] is [lit 97 100]); [ltb] is [<], and [a > b] is [b < a];
    [fmod] is the remainder operator [%], whose result has the sign of
    the dividend. *)
Class Number (T : Type) : Type := {
  lit   : Z -> Z -> T;
  add   : T -> T -> T;
  sub   : T -> T -> T;
  mul   : T -> T -> T;
  div   : T -> T -> T;
  neg   : T -> T;
  fmod  : T -> T -> T;
  ltb   : T -> T -> bool;
  abs   : T -> T;
  sqrt  : T -> T;
  cos   : T -> T;
  sin   : T -> T;
  atan2 : T -> T -> T
}.

Declare Scope num_scope.
Delimit Scope num_scope with num.
Notation "a + b" := (add a b) : num_scope.
Notation "a - b" := (sub a b) : num_scope.
Notation "a * b" := (mul a b) : num_scope.
Notation "a / b" := (div a b) : num_scope.
Notation "- a" := (neg a) : num_scope.
Notation "a 'mod' b" := (fmod a b) : num_scope.
Notation "a <? b" := (ltb a b) : num_scope.
Notation "a >? b" := (ltb b a) : num_scope.

(** *** Real numbers *)

Module RealNum.

Definition Rltb (a b : R) : bool := if Rlt_dec a b then true else false.

(** Rounding toward zero, as in the definition of [%]. *)
Definition trunc (r : R) : Z :=
  if Rle_dec 0 r then Int_part r else (- Int_part (- r))%Z.

Definition Rfmod (a b : R) : R := (a - b * IZR (trunc (a / b)))%R.

(** [Math.atan2 (y, x)]: the angle of the point [(x, y)], in
    (-PI, PI], and 0 at the origin. *)
Definition Ratan2 (y x : R) : R :=
  if Rlt_dec 0 x then atan (y / x)
  else if Rlt_dec x 0 then
    (if Rle_dec 0 y then atan (y / x) + PI else atan (y / x) - PI)%R
  else
    (if Rlt_dec 0 y then PI / 2 else if Rlt_dec y 0 then - (PI / 2) else 0)%R.

End RealNum.

#[export] Instance RNumber : Number R := {
  lit n d := (IZR n / IZR d)%R;
  add := Rplus;
  sub := Rminus;
  mul := Rmult;
  div := Rdiv;
  neg := Ropp;
  fmod := RealNum.Rfmod;
  ltb := RealNum.Rltb;
  abs := Rabs;
  sqrt := R_sqrt.sqrt;
  cos := Rtrigo_def.cos;
  sin := Rtrigo_def.sin;
  atan2 := RealNum.Ratan2
}.

(** *** binary64 *)

Module FloatNum.

Definition of_Z (n : Z) : float := PrimFloat.of_uint63 (Uint63.of_Z n).

(** [%] on binary64 is exact: both operands are integer multiples of
    the smaller of their two units, and the remainder of the integers
    is below 2^53. *)
Definition float_fmod (a b : float) : float :=
  match Prim2SF a, Prim2SF b with
  | S754_nan, _ | _, S754_nan => nan
  | S754_infinity _, _ => nan
  | _, S754_zero _ => nan
  | S754_zero _, _ => a
  | _, S754_infinity _ => a
  | S754_finite sa ma ea, S754_finite _ mb eb =>
      let g := Z.min ea eb in
      let na := (Zpos ma * 2 ^ (ea - g))%Z in
      let nb := (Zpos mb * 2 ^ (eb - g))%Z in
      let r := Z.ldexp (of_Z (na mod nb)) g in
      if sa then PrimFloat.opp r else r
  end.

End FloatNum.

(** binary64 has no primitive for the three trigonometric functions of
    [Math]; the instance takes them as arguments. *)
Definition FloatNumber (cosf sinf : float -> float)
    (atan2f : float -> float -> float) : Number float := {|
  lit n d := PrimFloat.div (FloatNum.of_Z n) (FloatNum.of_Z d);
  add := PrimFloat.add;
  sub := PrimFloat.sub;
  mul := PrimFloat.mul;
  div := PrimFloat.div;
  neg := PrimFloat.opp;
  fmod := FloatNum.float_fmod;
  ltb := PrimFloat.ltb;
  abs := PrimFloat.abs;
  sqrt := PrimFloat.sqrt;
  cos := cosf;
  sin := sinf;
  atan2 := atan2f
|}.

(** *** Real numbers with checked division

    The same arithmetic where a division (or a remainder) by zero gives
    no number, and an operation on no number gives no number; a
    comparison with no number is false. *)
Module CheckedNum.

Definition op1 (f : R -> R) (a : option R) : option R :=
  match a with
  | Some x => Some (f x)
  | None => None
  end.

Definition op2 (f : R -> R -> R) (a b : option R) : option R :=
  match a, b with
  | Some x, Some y => Some (f x y)
  | _, _ => None
  end.

Definition by_nonzero (f : R -> R -> R) (a b : option R) : option R :=
  match a, b with
  | Some x, Some y => if Req_dec_T y 0 then None else Some (f x y)
  | _, _ => None
  end.

Definition lt (a b : option R) : bool :=
  match a, b with
  | Some x, Some y => RealNum.Rltb x y
  | _, _ => false
  end.

End CheckedNum.

Definition CheckedNumber : Number (option R) := {|
  lit n d := Some (IZR n / IZR d)%R;
  add := CheckedNum.op2 Rplus;
  sub := CheckedNum.op2 Rminus;
  mul := CheckedNum.op2 Rmult;
  div := CheckedNum.by_nonzero Rdiv;
  neg := CheckedNum.op1 Ropp;
  fmod := CheckedNum.by_nonzero RealNum.Rfmod;
  ltb := CheckedNum.lt;
  abs := CheckedNum.op1 Rabs;
  sqrt := CheckedNum.op1 R_sqrt.sqrt;
  cos := CheckedNum.op1 Rtrigo_def.cos;
  sin := CheckedNum.op1 Rtrigo_def.sin;
  atan2 := CheckedNum.op2 RealNum.Ratan2
|}.

(* ================================================================== *)
(** ** Data *)

(** [{ x, y }]: a velocity, and the target and the current position of
    the cursor follower. *)
Module Vec.
Record t (T : Type) : Type := mk { x : T; y : T }.
End Vec.

(** [mouse]: each coordinate is a number or [undefined]. *)
Module Mouse.
Record t (T : Type) : Type := mk { x : option T; y : option T }.
End Mouse.

(** The fields of [class Particle]. *)
Module Particle.
Record t (T : Type) : Type := mk {
  x : T;
  y : T;
  radius : T;
  velocity : Vec.t T;
  hue : T
}.
End Particle.

(** What [draw] paints: one filled disc.  [fill_hue] and
    [fill_lightness] are the two holes of the [hsl(...)] template. *)
Inductive Lightness : Type := L70 | L50.

Record Disc (T : Type) : Type := mkDisc {
  fill_hue : T;
  fill_lightness : Lightness;
  arc_x : T;
  arc_y : T;
  arc_radius : T
}.

(** [Math.random]: a sequence of numbers fixed outside the program, and
    the number of draws taken so far. *)
Record Rng (T : Type) : Type := mkRng {
  draws : nat -> T;
  taken : nat
}.

(** A computation that may call [Math.random]. *)
Definition Rand (T A : Type) : Type := Rng T -> A * Rng T.

Definition ret {T A : Type} (a : A) : Rand T A := fun g => (a, g).

Definition bind {T A B : Type} (m : Rand T A) (k : A -> Rand T B) : Rand T B :=
  fun g => let (a, g') := m g in k a g'.

Definition random {T : Type} : Rand T T :=
  fun g => (draws g (taken g), mkRng (draws g) (S (taken g))).

Notation "x <- m ;; k" := (bind m (fun x => k))
  (at level 61, m at next level, right associativity).

(** The part of the page that [update] and [draw] read: the size of the
    canvas, the shared [mouse] object and the [dark] class of the root
    element. *)
Record Surface (T : Type) : Type := mkSurface {
  canvas_width : T;
  canvas_height : T;
  mouse : Mouse.t T;
  isDark : bool
}.

(* ================================================================== *)
(** ** [Particle.update] *)

Section ParticleUpdate.

Context {T : Type} {N : Number T}.
Local Open Scope num_scope.

Definition repelRadius : T := lit 100 1.
Definition maxForce : T := lit 2 1.
Definition maxSpeed : T := lit 15 10.

(** [this.hue = (this.hue + 0.5) % 360] *)
Definition update_hue (h : T) : T := (h + lit 5 10) mod lit 360 1.

(** The repulsion block, [if (mouse.x !== undefined && ...) { ... }]:
    the velocity it leaves. *)
Definition repel (m : Mouse.t T) (p : Particle.t T) : Vec.t T :=
  let v := Particle.velocity p in
  match Mouse.x m, Mouse.y m with
  | Some mx, Some my =>
      let dx := Particle.x p - mx in
      let dy := Particle.y p - my in
      let dist := sqrt (dx * dx + dy * dy) in
      if dist <? repelRadius then
        let angle := atan2 dy dx in
        let force := (repelRadius - dist) / repelRadius in
        Vec.mk (Vec.x v + cos angle * force * maxForce)
               (Vec.y v + sin angle * force * maxForce)
      else v
  | _, _ => v
  end.

(** [this.velocity.x *= 0.97; this.velocity.y *= 0.97] *)
Definition friction (v : Vec.t T) : Vec.t T :=
  Vec.mk (Vec.x v * lit 97 100) (Vec.y v * lit 97 100).

Definition speed_of (v : Vec.t T) : T :=
  sqrt (Vec.x v * Vec.x v + Vec.y v * Vec.y v).

(** The speed cap. *)
Definition speed_cap (v : Vec.t T) : Vec.t T :=
  let speed := speed_of v in
  if speed >? maxSpeed then
    Vec.mk ((Vec.x v / speed) * maxSpeed) ((Vec.y v / speed) * maxSpeed)
  else v.

(** [if (Math.abs(c) < 0.05) c += (Math.random() - 0.5) * 0.05] *)
Definition jitter_axis (c : T) : Rand T T :=
  if abs c <? lit 5 100 then
    r <- random ;; ret (c + (r - lit 5 10) * lit 5 100)
  else ret c.

Definition jitter (v : Vec.t T) : Rand T (Vec.t T) :=
  vx <- jitter_axis (Vec.x v) ;;
  vy <- jitter_axis (Vec.y v) ;;
  ret (Vec.mk vx vy).

(** One axis of "Bounce off walls": the position and the velocity
    component it leaves. *)
Definition bounce_axis (pos radius dim vel : T) : T * T :=
  if pos - radius <? lit 0 1 then (radius, - vel * lit 5 10)
  else if pos + radius >? dim then (dim - radius, - vel * lit 5 10)
  else (pos, vel).

(** [getParticleColors] *)
Definition getParticleColors (dark : bool) : Lightness :=
  if dark then L70 else L50.

Definition draw (s : Surface T) (p : Particle.t T) : Disc T :=
  mkDisc (Particle.hue p) (getParticleColors (isDark s))
         (Particle.x p) (Particle.y p) (Particle.radius p).

(** The velocity once friction and the speed cap are applied. *)
Definition capped_velocity (s : Surface T) (p : Particle.t T) : Vec.t T :=
  speed_cap (friction (repel (mouse s) p)).

(** [update ()]: the particle it leaves and the disc it paints. *)
Definition update (s : Surface T) (p : Particle.t T)
  : Rand T (Particle.t T * Disc T) :=
  let hue := update_hue (Particle.hue p) in
  v <- jitter (capped_velocity s p) ;;
  let x := Particle.x p + Vec.x v in
  let y := Particle.y p + Vec.y v in
  let (x', vx') := bounce_axis x (Particle.radius p) (canvas_width s) (Vec.x v) in
  let (y', vy') := bounce_axis y (Particle.radius p) (canvas_height s) (Vec.y v) in
  let p' := Particle.mk x' y' (Particle.radius p) (Vec.mk vx' vy') hue in
  ret (p', draw s p').

(** The particle that the integration and the bounce leave, from the
    velocity [v] that the jitter leaves. *)
Definition settle (s : Surface T) (p : Particle.t T) (v : Vec.t T)
  : Particle.t T :=
  let bx := bounce_axis (Particle.x p + Vec.x v) (Particle.radius p)
              (canvas_width s) (Vec.x v) in
  let by_ := bounce_axis (Particle.y p + Vec.y v) (Particle.radius p)
              (canvas_height s) (Vec.y v) in
  Particle.mk (fst bx) (fst by_) (Particle.radius p)
    (Vec.mk (snd bx) (snd by_)) (update_hue (Particle.hue p)).


End ParticleUpdate.

(* ================================================================== *)
(** ** The particle field: [setupParticleCanvas] *)

(** The two functions whose calls the resize handling is about. *)
Inductive Call : Type := CallResizeCanvas | CallInitParticles.

(** The state of the page that [setupParticleCanvas] reads and writes,
    and of the host that runs it: the clock (in milliseconds) and the
    timers set by [setTimeout] and not yet run or cleared, each with its
    id and the time at which it is due, earliest first.  [calls] is the
    record of the calls of [resizeCanvas] and [initParticles], each with
    the time of the call; the program does not read it. *)
Record State (T : Type) : Type := mkState {
  innerWidth : T;
  innerHeight : T;
  surface : Surface T;
  particles : list (Particle.t T);
  resizeTimer : option nat;
  clock : nat;
  timers : list (nat * nat);
  next_timer : nat;
  rng : Rng T;
  painted : list (Disc T);
  calls : list (nat * Call)
}.

Section ParticleField.

Context {T : Type} {N : Number T}.
Local Open Scope num_scope.

(** [resizeCanvas ()] *)
Definition resizeCanvas (st : State T) : State T :=
  let s := surface st in
  mkState (innerWidth st) (innerHeight st)
    (mkSurface (innerWidth st) (innerHeight st) (mouse s) (isDark s))
    (particles st) (resizeTimer st) (clock st) (timers st) (next_timer st)
    (rng st) (painted st)
    (calls st ++ [(clock st, CallResizeCanvas)]).

(** The body of the loop of [initParticles]. *)
Definition new_particle (s : Surface T) : Rand T (Particle.t T) :=
  r1 <- random ;;
  let radius := r1 * lit 15 10 + lit 1 1 in
  r2 <- random ;;
  let x := r2 * (canvas_width s - radius * lit 2 1) + radius in
  r3 <- random ;;
  let y := r3 * (canvas_height s - radius * lit 2 1) + radius in
  r4 <- random ;;
  r5 <- random ;;
  let velocity := Vec.mk ((r4 - lit 5 10) * lit 2 10) ((r5 - lit 5 10) * lit 2 10) in
  r6 <- random ;;
  let hue := r6 * lit 360 1 in
  ret (Particle.mk x y radius velocity hue).

(** [for (let i = 0; i < particleCount; i++) { ... particles.push (...) }],
    with [n] iterations left. *)
Fixpoint push_particles (n : nat) (s : Surface T) (ps : list (Particle.t T))
  : Rand T (list (Particle.t T)) :=
  match n with
  | O => ret ps
  | S n' => p <- new_particle s ;; push_particles n' s (ps ++ [p])
  end.

Definition particleCount (w : T) : nat :=
  if w <? lit 768 1 then 40%nat else 80%nat.

(** [initParticles ()] *)
Definition initParticles (st : State T) : State T :=
  let (ps, g) :=
    push_particles (particleCount (innerWidth st)) (surface st) [] (rng st) in
  mkState (innerWidth st) (innerHeight st) (surface st)
    ps (resizeTimer st) (clock st) (timers st) (next_timer st)
    g (painted st)
    (calls st ++ [(clock st, CallInitParticles)]).

(** [particles.forEach (p => p.update ())]: the particles and the discs
    painted, in the order of the collection. *)
Fixpoint update_all (s : Surface T) (ps : list (Particle.t T))
  : Rand T (list (Particle.t T) * list (Disc T)) :=
  match ps with
  | [] => ret ([], [])
  | p :: rest =>
      pd <- update s p ;;
      r <- update_all s rest ;;
      ret (fst pd :: fst r, snd pd :: snd r)
  end.

(** One run of [animate]: the canvas is cleared and every particle is
    updated and painted. *)
Definition animate (st : State T) : State T :=
  let (r, g) := update_all (surface st) (particles st) (rng st) in
  mkState (innerWidth st) (innerHeight st) (surface st)
    (fst r) (resizeTimer st) (clock st) (timers st) (next_timer st)
    g (snd r) (calls st).

(** *** Timers *)

Definition set_timers (st : State T) (rt : option nat)
    (tm : list (nat * nat)) (nx : nat) : State T :=
  mkState (innerWidth st) (innerHeight st) (surface st)
    (particles st) rt (clock st) tm nx
    (rng st) (painted st) (calls st).

Definition set_clock (t : nat) (st : State T) : State T :=
  mkState (innerWidth st) (innerHeight st) (surface st)
    (particles st) (resizeTimer st) t (timers st) (next_timer st)
    (rng st) (painted st) (calls st).

(** [clearTimeout (id)]; nothing happens when [id] is [undefined] or
    names no pending timer. *)
Definition clearTimeout (id : option nat) (tm : list (nat * nat))
  : list (nat * nat) :=
  match id with
  | Some i => filter (fun e => negb (Nat.eqb (fst e) i)) tm
  | None => tm
  end.

(** A new timer enters the queue behind those due no later. *)
Fixpoint enqueue (e : nat * nat) (tm : list (nat * nat)) : list (nat * nat) :=
  match tm with
  | [] => [e]
  | e' :: rest =>
      if Nat.leb (snd e') (snd e) then e' :: enqueue e rest
      else e :: tm
  end.

(** The second [resize] listener:
    [clearTimeout (resizeTimer); resizeTimer = setTimeout (..., 250)]. *)
Definition on_resize (st : State T) : State T :=
  let id := next_timer st in
  set_timers st (Some id)
    (enqueue (id, (clock st + 250)%nat) (clearTimeout (resizeTimer st) (timers st)))
    (S id).

(** The function given to [setTimeout]. *)
Definition resize_callback (st : State T) : State T :=
  initParticles (resizeCanvas st).

(** The host runs the timers that are due at time [t], earliest first,
    each at the time at which it is due. *)
Fixpoint run_timers (fuel : nat) (t : nat) (st : State T) : State T :=
  match fuel with
  | O => st
  | S fuel' =>
      match timers st with
      | (id, due) :: rest =>
          if Nat.leb due t then
            run_timers fuel' t
              (resize_callback
                 (set_clock due (set_timers st (resizeTimer st) rest (next_timer st))))
          else st
      | [] => st
      end
  end.

Definition advance (t : nat) (st : State T) : State T :=
  set_clock t (run_timers (length (timers st)) t st).

(** *** Events *)

Inductive Event : Type :=
| Resize (w h : T)
| MouseMove (clientX clientY : T)
| MouseOut
| ToggleTheme
| Frame.

Definition set_surface (st : State T) (s : Surface T) : State T :=
  mkState (innerWidth st) (innerHeight st) s
    (particles st) (resizeTimer st) (clock st) (timers st) (next_timer st)
    (rng st) (painted st) (calls st).

Definition set_window (w h : T) (st : State T) : State T :=
  mkState w h (surface st)
    (particles st) (resizeTimer st) (clock st) (timers st) (next_timer st)
    (rng st) (painted st) (calls st).

(** The listeners of an event, in the order in which they were added. *)
Definition dispatch (e : Event) (st : State T) : State T :=
  let s := surface st in
  match e with
  | Resize w h => on_resize (resizeCanvas (set_window w h st))
  | MouseMove cx cy =>
      set_surface st
        (mkSurface (canvas_width s) (canvas_height s)
           (Mouse.mk (Some cx) (Some cy)) (isDark s))
  | MouseOut =>
      set_surface st
        (mkSurface (canvas_width s) (canvas_height s)
           (Mouse.mk None None) (isDark s))
  | ToggleTheme =>
      set_surface st
        (mkSurface (canvas_width s) (canvas_height s) (mouse s) (negb (isDark s)))
  | Frame => animate st
  end.

(** An event that happens at time [t]. *)
Definition step (st : State T) (te : nat * Event) : State T :=
  dispatch (snd te) (advance (fst te) st).

Definition run (evs : list (nat * Event)) (st : State T) : State T :=
  fold_left step evs st.

(** [setupParticleCanvas ()] on a page [st] that has the canvas: the
    variables of the closure are initialised, the canvas takes the
    size of the window, the particles are created and the first frame
    is painted. *)
Definition setupParticleCanvas (st : State T) : State T :=
  let s := surface st in
  let st0 :=
    mkState (innerWidth st) (innerHeight st)
      (mkSurface (canvas_width s) (canvas_height s) (Mouse.mk None None) (isDark s))
      [] None (clock st) (timers st) (next_timer st)
      (rng st) (painted st) (calls st) in
  animate (initParticles (resizeCanvas st0)).

(** *** Runs of events *)

(** The page with another collection of particles. *)
Definition set_particles (ps : list (Particle.t T)) (st : State T) : State T :=
  mkState (innerWidth st) (innerHeight st) (surface st)
    ps (resizeTimer st) (clock st) (timers st) (next_timer st)
    (rng st) (painted st) (calls st).

Definition is_resize (e : Event) : bool :=
  match e with
  | Resize _ _ => true
  | _ => false
  end.

(** The times of the [resize] events of a run. *)
Definition resize_times (evs : list (nat * Event)) : list nat :=
  map fst (filter (fun te => is_resize (snd te)) evs).

(** The events come in the order of their times, none before [t0]. *)
Fixpoint ordered (t0 : nat) (evs : list (nat * Event)) : bool :=
  match evs with
  | [] => true
  | te :: rest => Nat.leb t0 (fst te) && ordered (fst te) rest
  end.

(** Each time is no earlier than the one before, [t0] first, and less
    than 250 ms after it. *)
Fixpoint spaced (t0 : nat) (ts : list nat) : bool :=
  match ts with
  | [] => true
  | t :: rest => Nat.leb t0 t && Nat.ltb t (t0 + 250) && spaced t rest
  end.

Definition burst (ts : list nat) : bool :=
  match ts with
  | [] => false
  | t :: rest => spaced t rest
  end.

(** The times of the calls of [c] in a record of calls. *)
Definition times_of (c : Call) (l : list (nat * Call)) : list nat :=
  map fst (filter (fun e => match snd e, c with
                            | CallResizeCanvas, CallResizeCanvas => true
                            | CallInitParticles, CallInitParticles => true
                            | _, _ => false
                            end) l).

End ParticleField.

Arguments Event : clear implicits.

(* ================================================================== *)
(** ** The cursor follower: [setupCustomCursor] *)

Record CursorState (T : Type) : Type := mkCursorState {
  target : Vec.t T;
  current : Vec.t T;
  smoothing : T
}.

Section CursorFollower.

Context {T : Type} {N : Number T}.
Local Open Scope num_scope.

(** The initial [cursorState]. *)
Definition initial_cursorState (w h : T) : CursorState T :=
  mkCursorState (Vec.mk (w / lit 2 1) (h / lit 2 1))
                (Vec.mk (w / lit 2 1) (h / lit 2 1))
                (lit 1 10).

(** The [mousemove] listener. *)
Definition cursor_mousemove (clientX clientY : T) (c : CursorState T)
  : CursorState T :=
  mkCursorState (Vec.mk clientX clientY) (current c) (smoothing c).

(** One run of [animateCursor]. *)
Definition animateCursor (c : CursorState T) : CursorState T :=
  let tg := target c in
  let cur := current c in
  mkCursorState tg
    (Vec.mk (Vec.x cur + (Vec.x tg - Vec.x cur) * smoothing c)
            (Vec.y cur + (Vec.y tg - Vec.y cur) * smoothing c))
    (smoothing c).

(** [k] frames during which the pointer does not move. *)
Definition frames (k : nat) (c : CursorState T) : CursorState T :=
  Nat.iter k animateCursor c.

End CursorFollower.

(* ================================================================== *)
(** ** Reading the page over the checked numbers *)

Definition inj_vec (v : Vec.t R) : Vec.t (option R) :=
  Vec.mk (Some (Vec.x v)) (Some (Vec.y v)).

Definition inj_mouse (m : Mouse.t R) : Mouse.t (option R) :=
  Mouse.mk (option_map Some (Mouse.x m)) (option_map Some (Mouse.y m)).

Definition inj_particle (p : Particle.t R) : Particle.t (option R) :=
  Particle.mk (Some (Particle.x p)) (Some (Particle.y p))
    (Some (Particle.radius p)) (inj_vec (Particle.velocity p))
    (Some (Particle.hue p)).

Definition inj_surface (s : Surface R) : Surface (option R) :=
  mkSurface (Some (canvas_width s)) (Some (canvas_height s))
    (inj_mouse (mouse s)) (isDark s).

Definition inj_rng (g : Rng R) : Rng (option R) :=
  mkRng (fun n => Some (draws g n)) (taken g).

Definition inj_disc (d : Disc R) : Disc (option R) :=
  mkDisc (Some (fill_hue d)) (fill_lightness d)
    (Some (arc_x d)) (Some (arc_y d)) (Some (arc_radius d)).


(* ================================================================== *)
(** ** The class list of an element *)

(** [element.classList]: the classes in the order of the attribute.
    [add] leaves a list that has the class as it is, [toggle] removes
    the class when it is there and adds it when it is not. *)
Module ClassList.

Definition t : Type := list String.string.

Definition contains (c : String.string) (l : t) : bool :=
  existsb (String.eqb c) l.

Definition add (c : String.string) (l : t) : t :=
  if contains c l then l else l ++ [c].

Definition remove (c : String.string) (l : t) : t :=
  filter (fun x => negb (String.eqb c x)) l.

Definition toggle (c : String.string) (l : t) : t :=
  if contains c l then remove c l else l ++ [c].

End ClassList.

(** [if (el) el.classList. ...]: nothing is done for an element that
    [getElementById] did not find. *)
Definition if_present (f : ClassList.t -> ClassList.t)
    (el : option ClassList.t) : option ClassList.t :=
  match el with
  | Some l => Some (f l)
  | None => None
  end.

(* ================================================================== *)
(** ** The theme toggle: [setupThemeToggle] *)

(** The class list of the root element, [localStorage.theme], the four
    icons (each a class list, or [None] when the element is missing)
    and whether each of the two buttons is on the page. *)
Record ThemePage : Type := mkThemePage {
  root_classList : ClassList.t;
  localStorage_theme : option String.string;
  themeToggleDarkIcon : option ClassList.t;
  themeToggleLightIcon : option ClassList.t;
  themeToggleDarkIconDesktop : option ClassList.t;
  themeToggleLightIconDesktop : option ClassList.t;
  themeToggleBtn : bool;
  themeToggleBtnDesktop : bool
}.

Section ThemeToggle.

Local Open Scope string_scope.

(** [setIconState ()] *)
Definition setIconState (pg : ThemePage) : ThemePage :=
  if ClassList.contains "dark" (root_classList pg) then
    mkThemePage (root_classList pg) (localStorage_theme pg)
      (if_present (ClassList.remove "hidden") (themeToggleDarkIcon pg))
      (if_present (ClassList.add "hidden") (themeToggleLightIcon pg))
      (if_present (ClassList.remove "hidden") (themeToggleDarkIconDesktop pg))
      (if_present (ClassList.add "hidden") (themeToggleLightIconDesktop pg))
      (themeToggleBtn pg) (themeToggleBtnDesktop pg)
  else
    mkThemePage (root_classList pg) (localStorage_theme pg)
      (if_present (ClassList.add "hidden") (themeToggleDarkIcon pg))
      (if_present (ClassList.remove "hidden") (themeToggleLightIcon pg))
      (if_present (ClassList.add "hidden") (themeToggleDarkIconDesktop pg))
      (if_present (ClassList.remove "hidden") (themeToggleLightIconDesktop pg))
      (themeToggleBtn pg) (themeToggleBtnDesktop pg).

(** [toggleTheme ()] *)
Definition toggleTheme (pg : ThemePage) : ThemePage :=
  let root := ClassList.toggle "dark" (root_classList pg) in
  let theme := if ClassList.contains "dark" root then "dark" else "light" in
  setIconState
    (mkThemePage root (Some theme)
       (themeToggleDarkIcon pg) (themeToggleLightIcon pg)
       (themeToggleDarkIconDesktop pg) (themeToggleLightIconDesktop pg)
       (themeToggleBtn pg) (themeToggleBtnDesktop pg)).

(** [setupThemeToggle ()]: the icons are set once; the two listeners it
    adds are [theme_click] below. *)
Definition setupThemeToggle (pg : ThemePage) : ThemePage := setIconState pg.

(** A click on one of the two buttons. *)
Inductive ThemeButton : Type := MobileButton | DesktopButton.

(** The [click] listener of a button; a button that is not on the page
    has none. *)
Definition theme_click (b : ThemeButton) (pg : ThemePage) : ThemePage :=
  let present := match b with
                 | MobileButton => themeToggleBtn pg
                 | DesktopButton => themeToggleBtnDesktop pg
                 end in
  if present then toggleTheme pg else pg.

Definition theme_clicks (bs : list ThemeButton) (pg : ThemePage) : ThemePage :=
  fold_left (fun p b => theme_click b p) bs pg.

(** The number of clicks of a run that fall on a button of the page. *)
Definition effective_clicks (pg : ThemePage) (bs : list ThemeButton) : nat :=
  length (filter (fun b => match b with
                           | MobileButton => themeToggleBtn pg
                           | DesktopButton => themeToggleBtnDesktop pg
                           end) bs).

(** The page is in dark mode. *)
Definition is_dark (pg : ThemePage) : bool :=
  ClassList.contains "dark" (root_classList pg).

(** An icon that is on the page is hidden, or shown, as [h] says. *)
Definition icon_hidden (h : bool) (icon : option ClassList.t) : Prop :=
  match icon with
  | Some l => ClassList.contains "hidden" l = h
  | None => True
  end.

(** The icons agree with the theme: in dark mode the two light icons
    are hidden and the two dark icons shown, and the other way round. *)
Definition icons_agree (pg : ThemePage) : Prop :=
  icon_hidden (negb (is_dark pg)) (themeToggleDarkIcon pg)
  /\ icon_hidden (is_dark pg) (themeToggleLightIcon pg)
  /\ icon_hidden (negb (is_dark pg)) (themeToggleDarkIconDesktop pg)
  /\ icon_hidden (is_dark pg) (themeToggleLightIconDesktop pg).

End ThemeToggle.

(* ================================================================== *)
(** ** The mobile menu: [setupMobileMenu] *)

(** The two functions given to [setTimeout]. *)
Inductive MenuTimer : Type :=
| RemoveOpacity0   (* [() => menuOverlay.classList.remove('opacity-0')] *)
| AddHidden.       (* [() => menuOverlay.classList.add('hidden')] *)

(** The three elements (a class list, or [None] when the element is
    missing; the button has no class the code reads), the class list of
    [document.body], the clock and the pending timers, each with the
    time at which it is due, earliest first. *)
Record MenuPage : Type := mkMenuPage {
  mobileMenuButton : bool;
  mobileMenuSlide : option ClassList.t;
  menuOverlay : option ClassList.t;
  body_classList : ClassList.t;
  menu_clock : nat;
  menu_timers : list (nat * MenuTimer)
}.

Section MobileMenu.

Local Open Scope string_scope.

(** A new timer enters the queue behind those due no later. *)
Fixpoint menu_enqueue (e : nat * MenuTimer) (tm : list (nat * MenuTimer))
  : list (nat * MenuTimer) :=
  match tm with
  | [] => [e]
  | e' :: rest =>
      if Nat.leb (fst e') (fst e) then e' :: menu_enqueue e rest
      else e :: tm
  end.

(** [setTimeout (f, delay)] where the overlay is on the page. *)
Definition menu_setTimeout (f : MenuTimer) (delay : nat) (pg : MenuPage)
  : list (nat * MenuTimer) :=
  match menuOverlay pg with
  | Some _ => menu_enqueue ((menu_clock pg + delay)%nat, f) (menu_timers pg)
  | None => menu_timers pg
  end.

(** [openMenu ()] *)
Definition openMenu (pg : MenuPage) : MenuPage :=
  mkMenuPage (mobileMenuButton pg)
    (if_present (ClassList.remove "translate-x-full") (mobileMenuSlide pg))
    (if_present (ClassList.remove "hidden") (menuOverlay pg))
    (ClassList.add "overflow-hidden" (body_classList pg))
    (menu_clock pg)
    (menu_setTimeout RemoveOpacity0 10 pg).

(** [closeMenu ()] *)
Definition closeMenu (pg : MenuPage) : MenuPage :=
  mkMenuPage (mobileMenuButton pg)
    (if_present (ClassList.add "translate-x-full") (mobileMenuSlide pg))
    (if_present (ClassList.add "opacity-0") (menuOverlay pg))
    (ClassList.remove "overflow-hidden" (body_classList pg))
    (menu_clock pg)
    (menu_setTimeout AddHidden 300 pg).

(** A timer runs. *)
Definition menu_fire (f : MenuTimer) (pg : MenuPage) : MenuPage :=
  let overlay :=
    match f with
    | RemoveOpacity0 => if_present (ClassList.remove "opacity-0") (menuOverlay pg)
    | AddHidden => if_present (ClassList.add "hidden") (menuOverlay pg)
    end in
  mkMenuPage (mobileMenuButton pg) (mobileMenuSlide pg) overlay
    (body_classList pg) (menu_clock pg) (menu_timers pg).

(** The host runs the timers that are due at time [t], earliest first,
    each at the time at which it is due. *)
Fixpoint menu_run_timers (fuel : nat) (t : nat) (pg : MenuPage) : MenuPage :=
  match fuel with
  | O => pg
  | S fuel' =>
      match menu_timers pg with
      | (due, f) :: rest =>
          if Nat.leb due t then
            menu_run_timers fuel' t
              (menu_fire f
                 (mkMenuPage (mobileMenuButton pg) (mobileMenuSlide pg)
                    (menuOverlay pg) (body_classList pg) due rest))
          else pg
      | [] => pg
      end
  end.

Definition menu_advance (t : nat) (pg : MenuPage) : MenuPage :=
  let pg' := menu_run_timers (length (menu_timers pg)) t pg in
  mkMenuPage (mobileMenuButton pg') (mobileMenuSlide pg') (menuOverlay pg')
    (body_classList pg') t (menu_timers pg').

(** The clicks that have a listener. *)
Inductive MenuEvent : Type :=
| ClickMenuButton
| ClickOverlay
| ClickMenuLink.

(** An element that is not on the page is not clicked; a link of the
    menu is inside [mobileMenuSlide]. *)
Definition menu_dispatch (e : MenuEvent) (pg : MenuPage) : MenuPage :=
  match e with
  | ClickMenuButton => if mobileMenuButton pg then openMenu pg else pg
  | ClickOverlay =>
      match menuOverlay pg with
      | Some _ => closeMenu pg
      | None => pg
      end
  | ClickMenuLink =>
      match mobileMenuSlide pg with
      | Some _ => closeMenu pg
      | None => pg
      end
  end.

Definition menu_step (pg : MenuPage) (te : nat * MenuEvent) : MenuPage :=
  menu_dispatch (snd te) (menu_advance (fst te) pg).

Definition menu_run (evs : list (nat * MenuEvent)) (pg : MenuPage) : MenuPage :=
  fold_left menu_step evs pg.

(** What the visitor sees of the menu. *)
Definition has_class (c : String.string) (el : option ClassList.t) : bool :=
  match el with
  | Some l => ClassList.contains c l
  | None => false
  end.

(** The scroll lock goes with the menu: the body has [overflow-hidden]
    when the menu is in view, and only then. *)
Definition menu_consistent (pg : MenuPage) : Prop :=
  ClassList.contains "overflow-hidden" (body_classList pg)
  = negb (has_class "translate-x-full" (mobileMenuSlide pg)).

End MobileMenu.

(* ================================================================== *)
(** ** Loading the header and the footer: [loadHtmlComponents] *)

(** The errors of the two chains: the reason with which [fetch] or
    [res.text ()] rejects, and the [Error] that the first handler
    throws, whose message is
    [Failed to fetch <what>: <status> <statusText>]. *)
Inductive JsError : Type :=
| HostError (reason : String.string)
| FailedToFetch (what : String.string) (status : nat) (statusText : String.string).

(** A promise that has settled. *)
Inductive Promise (A : Type) : Type :=
| Fulfilled (a : A)
| Rejected (e : JsError).

Arguments Rejected {A} e.

(** What the handlers read of a response. *)
Record Response : Type := mkResponse {
  ok : bool;
  status : nat;
  statusText : String.string;
  text : Promise String.string
}.

(** The [innerHTML] of each placeholder ([None] when the element is
    missing), what [console.error] has printed, and the number of calls
    of [initializeSite]. *)
Record LoaderPage : Type := mkLoaderPage {
  headerPlaceholder : option String.string;
  footerPlaceholder : option String.string;
  console_errors : list (String.string * JsError);
  initializeSite_calls : nat
}.

Section Loader.

Local Open Scope string_scope.

(** [p.then (f)]: a handler reads and writes the page and returns a
    promise, or throws. *)
Definition then_ {A B : Type} (p : Promise A)
    (f : A -> LoaderPage -> Promise B * LoaderPage) (pg : LoaderPage)
  : Promise B * LoaderPage :=
  match p with
  | Fulfilled a => f a pg
  | Rejected e => (Rejected e, pg)
  end.

(** [p.catch (h)] *)
Definition catch_ {A : Type} (p : Promise A)
    (h : JsError -> LoaderPage -> Promise A * LoaderPage) (pg : LoaderPage)
  : Promise A * LoaderPage :=
  match p with
  | Fulfilled a => (Fulfilled a, pg)
  | Rejected e => h e pg
  end.

(** [Promise.all ([a, b])] *)
Definition Promise_all (a b : Promise unit) : Promise unit :=
  match a, b with
  | Fulfilled _, Fulfilled _ => Fulfilled tt
  | Rejected e, _ => Rejected e
  | _, Rejected e => Rejected e
  end.

Inductive Component : Type := Header | Footer.

Definition component_name (c : Component) : String.string :=
  match c with
  | Header => "header"
  | Footer => "footer"
  end.

Definition placeholder (c : Component) (pg : LoaderPage) : option String.string :=
  match c with
  | Header => headerPlaceholder pg
  | Footer => footerPlaceholder pg
  end.

(** [if (placeholder) placeholder.innerHTML = data] *)
Definition set_innerHTML (c : Component) (data : String.string) (pg : LoaderPage)
  : LoaderPage :=
  match c with
  | Header =>
      mkLoaderPage
        (match headerPlaceholder pg with Some _ => Some data | None => None end)
        (footerPlaceholder pg) (console_errors pg) (initializeSite_calls pg)
  | Footer =>
      mkLoaderPage (headerPlaceholder pg)
        (match footerPlaceholder pg with Some _ => Some data | None => None end)
        (console_errors pg) (initializeSite_calls pg)
  end.

(** [console.error ('Error loading <what>:', err)] *)
Definition console_error (c : Component) (err : JsError) (pg : LoaderPage)
  : LoaderPage :=
  mkLoaderPage (headerPlaceholder pg) (footerPlaceholder pg)
    (console_errors pg
       ++ [(String.append "Error loading "
              (String.append (component_name c) ":"), err)])
    (initializeSite_calls pg).

(** [loadHeader] and [loadFooter]: the chain
    [fetch (...).then (...).then (...).catch (...)], from the promise
    that [fetch] returns. *)
Definition load (c : Component) (fetched : Promise Response) (pg : LoaderPage)
  : Promise unit * LoaderPage :=
  let (p1, pg1) :=
    then_ fetched
      (fun res pg =>
         if negb (ok res) then
           (Rejected (FailedToFetch (component_name c) (status res) (statusText res)),
            pg)
         else (text res, pg))
      pg in
  let (p2, pg2) :=
    then_ p1 (fun data pg => (Fulfilled tt, set_innerHTML c data pg)) pg1 in
  catch_ p2 (fun err pg => (Fulfilled tt, console_error c err pg)) pg2.

(** [loadHtmlComponents ()].  The two chains run on their own; which
    of them settles first is the host's choice, [header_first]. *)
Definition loadHtmlComponents (header_first : bool)
    (fetch_header fetch_footer : Promise Response) (pg : LoaderPage)
  : Promise unit * LoaderPage :=
  if header_first then
    let (h, pg1) := load Header fetch_header pg in
    let (f, pg2) := load Footer fetch_footer pg1 in
    (Promise_all h f, pg2)
  else
    let (f, pg1) := load Footer fetch_footer pg in
    let (h, pg2) := load Header fetch_header pg1 in
    (Promise_all h f, pg2).

(** The [DOMContentLoaded] listener:
    [loadHtmlComponents ().then (() => { initializeSite (); })]. *)
Definition onDOMContentLoaded (header_first : bool)
    (fetch_header fetch_footer : Promise Response) (pg : LoaderPage)
  : LoaderPage :=
  let (p, pg1) := loadHtmlComponents header_first fetch_header fetch_footer pg in
  snd (then_ p
         (fun _ pg =>
            (Fulfilled tt,
             mkLoaderPage (headerPlaceholder pg) (footerPlaceholder pg)
               (console_errors pg) (S (initializeSite_calls pg))))
         pg1).

(** The chain of a component ends without an error: the response is
    [ok] and its text arrives. *)
Definition loaded (fetched : Promise Response) : option String.string :=
  match fetched with
  | Fulfilled res =>
      if ok res then
        match text res with
        | Fulfilled data => Some data
        | Rejected _ => None
        end
      else None
  | Rejected _ => None
  end.

(** 1 when the file of a component did not arrive, 0 when it did. *)
Definition failed (fetched : Promise Response) : nat :=
  match loaded fetched with
  | Some _ => 0
  | None => 1
  end.

End Loader.

(* ================================================================== *)
(** ** The cursor follower on the page *)

(** The state of the follower and the class list of the indicator. *)
Record CursorPage (T : Type) : Type := mkCursorPage {
  cursorState : CursorState T;
  cursor_classList : ClassList.t
}.

Section CursorPageEvents.

Context {T : Type} {N : Number T}.
Local Open Scope string_scope.

(** What [setupCustomCursor] leaves: nothing when the indicator is
    missing; the indicator hidden, with no listener and no loop, when
    the pointer is not fine; the follower running otherwise. *)
Inductive CursorSetup : Type :=
| CursorMissing
| CursorDisplayNone
| CursorRunning (pg : CursorPage T).

(** [setupCustomCursor ()], up to the first run of [animateCursor]. *)
Definition setupCustomCursor (cursor : option ClassList.t) (pointer_fine : bool)
    (w h : T) : CursorSetup :=
  match cursor with
  | None => CursorMissing
  | Some classes =>
      if negb pointer_fine then CursorDisplayNone
      else CursorRunning
             (mkCursorPage (animateCursor (initial_cursorState w h)) classes)
  end.

(** The events that have a listener, and the frames. *)
Inductive CursorEvent : Type :=
| CursorMouseMove (clientX clientY : T)
| CursorMouseEnter     (* on a link or a button *)
| CursorMouseLeave
| CursorFrame.

Definition cursor_dispatch (e : CursorEvent) (pg : CursorPage T) : CursorPage T :=
  match e with
  | CursorMouseMove cx cy =>
      mkCursorPage (cursor_mousemove cx cy (cursorState pg)) (cursor_classList pg)
  | CursorMouseEnter =>
      mkCursorPage (cursorState pg) (ClassList.add "hover" (cursor_classList pg))
  | CursorMouseLeave =>
      mkCursorPage (cursorState pg) (ClassList.remove "hover" (cursor_classList pg))
  | CursorFrame =>
      mkCursorPage (animateCursor (cursorState pg)) (cursor_classList pg)
  end.

Definition cursor_run (evs : list CursorEvent) (pg : CursorPage T) : CursorPage T :=
  fold_left (fun p e => cursor_dispatch e p) evs pg.

(** The last [mouseenter] or [mouseleave] of a run, if any, is a
    [mouseenter]; [h] when there is none. *)
Fixpoint last_is_enter (h : bool) (evs : list CursorEvent) : bool :=
  match evs with
  | [] => h
  | CursorMouseEnter :: rest => last_is_enter true rest
  | CursorMouseLeave :: rest => last_is_enter false rest
  | _ :: rest => last_is_enter h rest
  end.

End CursorPageEvents.

Arguments CursorEvent : clear implicits.
Arguments CursorSetup : clear implicits.

(* ================================================================== *)
(** ** What the particle field keeps *)

Section FieldInvariants.

Local Open Scope R_scope.





End FieldInvariants.

(** The [resize] times after which the window stayed as it was for
    250 ms: each time that is the last, or that the next one follows by
    250 ms or more. *)
Fixpoint settled (ts : list nat) : list nat :=
  match ts with
  | [] => []
  | t :: rest =>
      match rest with
      | [] => [t]
      | t' :: _ => if Nat.ltb t' (t + 250) then settled rest else t :: settled rest
      end
  end.

Section CursorBox.

Local Open Scope R_scope.

(** The point [v] is in the rectangle from [lo] to [hi]. *)
Definition in_box (lo hi : Vec.t R) (v : Vec.t R) : Prop :=
  (Vec.x lo <= Vec.x v <= Vec.x hi) /\ (Vec.y lo <= Vec.y v <= Vec.y hi).

(** A [mousemove] reports a point of the rectangle. *)
Definition move_in_box (lo hi : Vec.t R) (e : CursorEvent R) : Prop :=
  match e with
  | CursorMouseMove cx cy => in_box lo hi (Vec.mk cx cy)
  | _ => True
  end.

End CursorBox.

Section FieldRanges.

Local Open Scope R_scope.



End FieldRanges.

Section PointerReach.

Local Open Scope R_scope.


End PointerReach.

Section Roomy.

Local Open Scope R_scope.



End Roomy.

Unset Implicit Arguments.

(* ================================================================== *)
(** ** Tactics *)

(** Unfold the operations of [Number] at the real numbers. *)
Ltac real_ops :=
  cbn [lit add sub mul div neg fmod ltb abs sqrt cos sin atan2 RNumber] in *.

(** Settles the comparisons of a goal on concrete numbers. *)
Ltac decide_Rlt :=
  repeat match goal with
  | |- context [Rlt_dec ?a ?b] =>
      destruct (Rlt_dec a b); [ try (exfalso; lra) | try (exfalso; lra) ]
  end.

(** Unfold the operations of [Number] at the checked numbers. *)
Ltac checked_ops :=
  cbn [lit add sub mul div neg fmod ltb abs sqrt cos sin atan2 CheckedNumber
       RNumber CheckedNum.op1 CheckedNum.op2 CheckedNum.by_nonzero CheckedNum.lt].

(* ================================================================== *)
(** ** Unfolding [update], over any numbers *)

Section UpdateShape.

Context {T : Type} {N : Number T}.
Local Open Scope num_scope.

Lemma update_settle (s : Surface T) (p : Particle.t T) (g : Rng T) :
  update s p g =
    (settle s p (fst (jitter (capped_velocity s p) g)),
     draw s (settle s p (fst (jitter (capped_velocity s p) g))),
     snd (jitter (capped_velocity s p) g)).
Proof.
  unfold update, settle, bind, ret.
  destruct (jitter (capped_velocity s p) g) as [v g']. simpl.
  destruct (bounce_axis _ _ (canvas_width s) _),
           (bounce_axis _ _ (canvas_height s) _).
  reflexivity.
Qed.



(** The jitter, branch by branch. *)
Lemma jitter_axis_idle (c : T) (g : Rng T) :
  (abs c <? lit 5 100) = true ->
  jitter_axis c g =
    (c + (draws g (taken g) - lit 5 10) * lit 5 100,
     mkRng (draws g) (S (taken g))).
Proof. intros H. unfold jitter_axis. rewrite H. reflexivity. Qed.

Lemma jitter_axis_moving (c : T) (g : Rng T) :
  (abs c <? lit 5 100) = false -> jitter_axis c g = (c, g).
Proof. intros H. unfold jitter_axis. rewrite H. reflexivity. Qed.

Lemma jitter_moving (v : Vec.t T) (g : Rng T) :
  (abs (Vec.x v) <? lit 5 100) = false ->
  (abs (Vec.y v) <? lit 5 100) = false ->
  jitter v g = (v, g).
Proof.
  intros Hx Hy. unfold jitter, bind.
  rewrite (jitter_axis_moving _ _ Hx), (jitter_axis_moving _ _ Hy).
  destruct v; reflexivity.
Qed.

End UpdateShape.

Section InitParticles.

Context {T : Type} {N : Number T}.

Lemma push_particles_length (n : nat) (s : Surface T)
    (ps : list (Particle.t T)) (g : Rng T) :
  length (fst (push_particles n s ps g)) = (length ps + n)%nat.
Proof.
  revert ps g. induction n as [|n IH]; intros ps g; simpl.
  - unfold ret. simpl. lia.
  - unfold bind at 1. destruct (new_particle s g) as [p g'].
    rewrite IH. rewrite length_app. simpl. lia.
Qed.

Lemma initParticles_particles (st : State T) :
  particles (initParticles st) =
    fst (push_particles (particleCount (innerWidth st)) (surface st) [] (rng st)).
Proof.
  unfold initParticles.
  destruct (push_particles _ _ _ _) as [ps g]. reflexivity.
Qed.

End InitParticles.

(* ================================================================== *)
(** ** Properties over the real numbers *)

Section RealFacts.

Local Open Scope R_scope.

Lemma Rltb_true (a b : R) : RealNum.Rltb a b = true <-> a < b.
Proof.
  unfold RealNum.Rltb. destruct (Rlt_dec a b); split; intros; try easy.
Qed.

Lemma Rltb_false (a b : R) : RealNum.Rltb a b = false <-> b <= a.
Proof.
  unfold RealNum.Rltb. destruct (Rlt_dec a b); split; intros; try easy; lra.
Qed.

Lemma sqrt_le_bound (x c : R) : 0 <= c -> x <= c * c -> R_sqrt.sqrt x <= c.
Proof.
  intros Hc Hx.
  rewrite <- (sqrt_square c Hc).
  apply sqrt_le_1_alt. exact Hx.
Qed.




(** *** The bounce *)


Lemma bounce_axis_low (pos r dim vel : R) :
  pos - r < 0 -> bounce_axis pos r dim vel = (r, -0.5 * vel).
Proof.
  intros H. unfold bounce_axis. real_ops. unfold RealNum.Rltb.
  destruct (Rlt_dec (pos - r) (0 / 1)); [|exfalso; lra].
  f_equal. lra.
Qed.

Lemma bounce_axis_high (pos r dim vel : R) :
  0 <= pos - r -> pos + r > dim ->
  bounce_axis pos r dim vel = (dim - r, -0.5 * vel).
Proof.
  intros H1 H2. unfold bounce_axis. real_ops. unfold RealNum.Rltb.
  destruct (Rlt_dec (pos - r) (0 / 1)); [exfalso; lra|].
  destruct (Rlt_dec dim (pos + r)); [|exfalso; lra].
  f_equal. lra.
Qed.

Lemma bounce_axis_narrow (pos r dim vel : R) :
  dim < 2 * r ->
  ~ (r <= fst (bounce_axis pos r dim vel) <= dim - r).
Proof. intros H [H1 H2]. lra. Qed.


(** *** The speed cap and the jitter *)




(** A particle at rest, away from the pointer, when [Math.random]
    returns 0.5: the jitter adds (0.5 - 0.5) * 0.05 = 0. *)
Lemma rest_velocity (w h x y r hu : R) (dark : bool) :
  let s := mkSurface w h (Mouse.mk None None) dark in
  let p := Particle.mk x y r (Vec.mk 0 0) hu in
  fst (jitter (capped_velocity s p) (mkRng (fun _ => 1 / 2) 0)) = Vec.mk 0 0.
Proof.
  intros s p.
  assert (Hc : capped_velocity s p = Vec.mk 0 0).
  { unfold capped_velocity, speed_cap, speed_of, friction, repel. simpl.
    replace (0 * (97 / 100) * (0 * (97 / 100))
             + 0 * (97 / 100) * (0 * (97 / 100))) with 0 by lra.
    rewrite sqrt_0. unfold RealNum.Rltb. decide_Rlt. f_equal; lra. }
  rewrite Hc.
  unfold jitter, jitter_axis, bind, random, ret. real_ops. cbn [Vec.x Vec.y].
  rewrite Rabs_R0. unfold RealNum.Rltb. decide_Rlt.
  cbn [fst snd draws taken]. f_equal; lra.
Qed.

End RealFacts.

Section PositionInvariant.

Local Open Scope R_scope.




End PositionInvariant.

Section SpeedInvariant.

Local Open Scope R_scope.




End SpeedInvariant.

Section Repulsion.

Local Open Scope R_scope.



End Repulsion.

Section Bounce.

Local Open Scope R_scope.

(** C4, with the far edge tested when the near edge is not crossed, as
    in the code.  Let v be the velocity before the integration
    and pos = position + v the position after it.  On each axis: if
    pos - radius < 0, [update] leaves the position at radius and the
    velocity component at -0.5 times v; if pos - radius >= 0 and
    pos + radius > dimension, it leaves the position at
    dimension - radius and the component at -0.5 times v. *)
Theorem C4_boundary_bounce (s : Surface R) (p : Particle.t R) (g : Rng R) :
  let v := fst (jitter (capped_velocity s p) g) in
  let p' := fst (fst (update s p g)) in
  let r := Particle.radius p in
  let posx := Particle.x p + Vec.x v in
  let posy := Particle.y p + Vec.y v in
  (posx - r < 0 ->
     Particle.x p' = r /\ Vec.x (Particle.velocity p') = -0.5 * Vec.x v)
  /\ (0 <= posx - r -> posx + r > canvas_width s ->
     Particle.x p' = canvas_width s - r
     /\ Vec.x (Particle.velocity p') = -0.5 * Vec.x v)
  /\ (posy - r < 0 ->
     Particle.y p' = r /\ Vec.y (Particle.velocity p') = -0.5 * Vec.y v)
  /\ (0 <= posy - r -> posy + r > canvas_height s ->
     Particle.y p' = canvas_height s - r
     /\ Vec.y (Particle.velocity p') = -0.5 * Vec.y v).
Proof.
  intros v p' r posx posy. subst p'. rewrite update_settle. fold v.
  cbn [fst settle Particle.x Particle.y Particle.velocity Vec.x Vec.y].
  fold r posx posy.
  repeat split; intros;
    first [ rewrite bounce_axis_low by assumption
          | rewrite bounce_axis_high by assumption ]; reflexivity.
Qed.

Lemma C4_boundary_bounce_witness :
  let s := mkSurface 100 100 (Mouse.mk None None) false in
  let p := Particle.mk (3 / 2) (995 / 10) 2 (Vec.mk 0 0) 0 in
  let p' := fst (fst (update s p (mkRng (fun _ => 1 / 2) 0))) in
  Particle.x p' = 2 /\ Particle.y p' = 100 - 2.
Proof.
  intros s p p'.
  pose proof (C4_boundary_bounce s p (mkRng (fun _ => 1 / 2) 0)) as H.
  subst p' s p. cbv zeta in H.
  rewrite (rest_velocity 100 100 (3 / 2) (995 / 10) 2 0 false) in H.
  cbn [Particle.x Particle.y Particle.radius Vec.x Vec.y canvas_height] in H.
  destruct H as (Hx & _ & _ & Hy). split.
  - apply Hx. lra.
  - apply Hy; lra.
Defined.

(** C4 does not hold where both edges are crossed: in a window 3 wide, a
    particle of radius 2 that the integration leaves at x = 1.5 has
    x + radius > width, and is put at radius = 2, not at
    width - radius = 1. *)
Lemma C4_counterexample_both_edges :
  let s := mkSurface 3 100 (Mouse.mk None None) false in
  let p := Particle.mk (3 / 2) 50 2 (Vec.mk 0 0) 0 in
  let g := mkRng (fun _ : nat => 1 / 2) 0 in
  let v := fst (jitter (capped_velocity s p) g) in
  let p' := fst (fst (update s p g)) in
  Particle.x p + Vec.x v + Particle.radius p > canvas_width s
  /\ Particle.x p' <> canvas_width s - Particle.radius p.
Proof.
  cbv zeta.
  rewrite update_settle, (rest_velocity 3 100 (3 / 2) 50 2 0 false).
  cbn [fst settle Particle.x Particle.radius Vec.x canvas_width].
  real_ops. rewrite bounce_axis_low by lra. cbn [fst]. split; lra.
Qed.

End Bounce.

Section Debounce.

Context {T : Type} {N : Number T}.

Lemma initParticles_host (st : State T) :
  calls (initParticles st) = calls st ++ [(clock st, CallInitParticles)]
  /\ timers (initParticles st) = timers st
  /\ resizeTimer (initParticles st) = resizeTimer st
  /\ clock (initParticles st) = clock st
  /\ next_timer (initParticles st) = next_timer st.
Proof.
  unfold initParticles. destruct (push_particles _ _ _ _) as [ps g].
  repeat split.
Qed.

Lemma last_cons_default (a d : nat) (l : list nat) :
  last (a :: l) d = last l a.
Proof.
  revert a d. induction l as [|x l IH]; intros a d; [reflexivity|].
  change (last (a :: x :: l) d) with (last (x :: l) d).
  rewrite (IH x d), (IH x a). reflexivity.
Qed.

(** What one [resize] event leaves when no timer is pending, or only
    the one that [resizeTimer] names. *)
Lemma step_resize (st : State T) (t : nat) (w h : T) :
  (timers st = []
   \/ exists id due, timers st = [(id, due)] /\ resizeTimer st = Some id
                     /\ t < due) ->
  let st' := step st (t, Resize w h) in
  timers st' = [(next_timer st, t + 250)]
  /\ resizeTimer st' = Some (next_timer st)
  /\ clock st' = t
  /\ calls st' = calls st ++ [(t, CallResizeCanvas)].
Proof.
  intros H st'. subst st'. unfold step, advance. cbn [fst snd].
  assert (Hrun : run_timers (length (timers st)) t st = st).
  { destruct H as [H | (id & due & H & _ & Hlt)]; rewrite H; cbn [length run_timers].
    - reflexivity.
    - rewrite H. apply Nat.leb_gt in Hlt. rewrite Hlt. reflexivity. }
  rewrite Hrun.
  unfold dispatch, on_resize, resizeCanvas, set_window, set_clock, set_timers.
  cbn [timers resizeTimer clock calls next_timer].
  repeat split.
  destruct H as [H | (id & due & H & Hid & _)]; rewrite H.
  - destruct (resizeTimer st); reflexivity.
  - rewrite Hid. cbn [clearTimeout filter fst]. rewrite Nat.eqb_refl. reflexivity.
Qed.

(** The timer of the debounce runs when the clock reaches its time. *)
Lemma advance_fires (st : State T) (id due t : nat) :
  timers st = [(id, due)] -> due <= t ->
  let st' := advance t st in
  timers st' = []
  /\ calls st' = calls st ++ [(due, CallResizeCanvas); (due, CallInitParticles)].
Proof.
  intros Htm Hle st'. subst st'. unfold advance. rewrite Htm.
  cbn [length run_timers]. rewrite Htm.
  apply Nat.leb_le in Hle. rewrite Hle.
  unfold resize_callback.
  change (timers (set_clock t ?x)) with (timers x).
  change (calls (set_clock t ?x)) with (calls x).
  destruct (initParticles_host
              (resizeCanvas
                 (set_clock due (set_timers st (resizeTimer st) [] (next_timer st)))))
    as (Hc & Ht & _).
  rewrite Ht, Hc. cbn. rewrite <- app_assoc. auto.
Qed.

Lemma animate_host (st : State T) :
  calls (animate st) = calls st
  /\ timers (animate st) = timers st
  /\ resizeTimer (animate st) = resizeTimer st.
Proof.
  unfold animate. destruct (update_all _ _ _) as [r g]. repeat split.
Qed.

(** The callback of the timer sets no timer. *)
Lemma resize_callback_timers (st : State T) :
  timers (resize_callback st) = timers st.
Proof.
  unfold resize_callback.
  destruct (initParticles_host (resizeCanvas st)) as (_ & Ht & _).
  rewrite Ht. reflexivity.
Qed.

(** One unit of fuel for each pending timer is enough: more fuel runs
    the same timers. *)
Lemma run_timers_enough (n t : nat) (st : State T) :
  length (timers st) <= n ->
  run_timers n t st = run_timers (length (timers st)) t st.
Proof.
  revert st. induction n as [|n IH]; intros st Hn.
  - replace (length (timers st)) with 0 by lia. reflexivity.
  - destruct (timers st) as [|[id due] rest] eqn:Htm.
    + cbn [length run_timers]. rewrite Htm. reflexivity.
    + cbn [length run_timers] in *. rewrite Htm.
      destruct (Nat.leb due t); [|reflexivity].
      set (st1 := resize_callback
                    (set_clock due
                       (set_timers st (resizeTimer st) rest (next_timer st)))).
      assert (H1 : timers st1 = rest).
      { unfold st1. rewrite resize_callback_timers. reflexivity. }
      rewrite (IH st1) by (rewrite H1; lia). rewrite H1. reflexivity.
Qed.

(** [setupParticleCanvas] sets no timer and leaves [resizeTimer]
    undefined. *)
Lemma setup_timers (st : State T) :
  timers (setupParticleCanvas st) = timers st
  /\ resizeTimer (setupParticleCanvas st) = None.
Proof.
  unfold setupParticleCanvas.
  destruct (animate_host
              (initParticles
                 (resizeCanvas
                    (mkState (innerWidth st) (innerHeight st)
                       (mkSurface (canvas_width (surface st)) (canvas_height (surface st))
                          (Mouse.mk None None) (isDark (surface st)))
                       [] None (clock st) (timers st) (next_timer st)
                       (rng st) (painted st) (calls st)))))
    as (_ & Ht & Hr).
  rewrite Ht, Hr.
  destruct (initParticles_host
              (resizeCanvas
                 (mkState (innerWidth st) (innerHeight st)
                    (mkSurface (canvas_width (surface st)) (canvas_height (surface st))
                       (Mouse.mk None None) (isDark (surface st)))
                    [] None (clock st) (timers st) (next_timer st)
                    (rng st) (painted st) (calls st))))
    as (_ & Ht' & Hr' & _).
  rewrite Ht', Hr'. split; reflexivity.
Qed.

Lemma dispatch_other_host (e : Event T) (st : State T) :
  is_resize e = false ->
  calls (dispatch e st) = calls st
  /\ timers (dispatch e st) = timers st
  /\ resizeTimer (dispatch e st) = resizeTimer st.
Proof.
  intros He. destruct e; try discriminate;
    first [apply animate_host | repeat split].
Qed.

Lemma advance_idle (st : State T) (t : nat) :
  (timers st = []
   \/ exists id due, timers st = [(id, due)] /\ t < due) ->
  advance t st = set_clock t st.
Proof.
  intros H. unfold advance. f_equal.
  destruct H as [H | (id & due & H & Hlt)]; rewrite H; cbn [length run_timers].
  - reflexivity.
  - rewrite H. apply Nat.leb_gt in Hlt. rewrite Hlt. reflexivity.
Qed.

Lemma step_other_idle (st : State T) (t : nat) (e : Event T) :
  is_resize e = false ->
  (timers st = []
   \/ exists id due, timers st = [(id, due)] /\ t < due) ->
  calls (step st (t, e)) = calls st
  /\ timers (step st (t, e)) = timers st
  /\ resizeTimer (step st (t, e)) = resizeTimer st.
Proof.
  intros He H. unfold step. cbn [fst snd]. rewrite (advance_idle st t H).
  apply (dispatch_other_host e (set_clock t st) He).
Qed.

Lemma run_cons (te : nat * Event T) (evs : list (nat * Event T)) (st : State T) :
  run (te :: evs) st = run evs (step st te).
Proof. reflexivity. Qed.

Lemma ordered_weaken (t0 t1 : nat) (evs : list (nat * Event T)) :
  t0 <= t1 -> ordered t1 evs = true -> ordered t0 evs = true.
Proof.
  intros Hle H. destruct evs as [|te rest]; [reflexivity|].
  cbn [ordered] in *. apply andb_prop in H as [H1 H2].
  apply Nat.leb_le in H1. rewrite H2, andb_true_r. apply Nat.leb_le. lia.
Qed.

Lemma ordered_resize_times (t0 : nat) (evs : list (nat * Event T)) :
  ordered t0 evs = true -> Forall (fun t => t0 <= t) (resize_times evs).
Proof.
  revert t0. induction evs as [|[t e] rest IH]; intros t0 H; [constructor|].
  cbn [ordered fst] in H. apply andb_prop in H as [H1 H2].
  apply Nat.leb_le in H1.
  assert (Hrest : Forall (fun t' => t0 <= t') (resize_times rest)).
  { apply IH. apply ordered_weaken with t; assumption. }
  unfold resize_times in *. cbn [filter snd].
  destruct (is_resize e); [constructor; assumption | assumption].
Qed.

(** With no timer pending and no [resize] to come, nothing is called. *)
Lemma run_quiet (evs : list (nat * Event T)) (st : State T) :
  timers st = [] -> resize_times evs = [] ->
  timers (run evs st) = [] /\ calls (run evs st) = calls st.
Proof.
  revert st. induction evs as [|[t e] rest IH]; intros st Htm Hr; [auto|].
  unfold resize_times in Hr. cbn [filter snd] in Hr.
  destruct (is_resize e) eqn:He; [discriminate|].
  rewrite run_cons.
  destruct (step_other_idle st t e He (or_introl Htm)) as (Hc & Ht & _).
  destruct (IH (step st (t, e))) as (IH1 & IH2).
  - rewrite Ht. exact Htm.
  - exact Hr.
  - rewrite IH1, IH2, Hc. auto.
Qed.

(** The run from the state that a [resize] at [tl] left. *)
Lemma run_pending (evs : list (nat * Event T)) (st : State T) (tl t : nat) :
  (exists id, timers st = [(id, tl + 250)] /\ resizeTimer st = Some id) ->
  ordered tl evs = true ->
  spaced tl (resize_times evs) = true ->
  last (resize_times evs) tl + 250 <= t ->
  let st' := advance t (run evs st) in
  timers st' = []
  /\ calls st' =
       calls st ++ map (fun t => (t, CallResizeCanvas)) (resize_times evs)
         ++ [(last (resize_times evs) tl + 250, CallResizeCanvas);
             (last (resize_times evs) tl + 250, CallInitParticles)].
Proof.
  revert st tl. induction evs as [|[t' e] rest IH]; intros st tl Hst Hord Hsp Ht.
  - destruct Hst as (id & Htm & _). cbn in *.
    apply (advance_fires st id (tl + 250) t Htm Ht).
  - cbn [ordered fst] in Hord. apply andb_prop in Hord as [Hle Hord].
    apply Nat.leb_le in Hle.
    destruct Hst as (id & Htm & Hid).
    destruct (is_resize e) eqn:He.
    + destruct e as [w h| | | |]; try discriminate.
      unfold resize_times in Hsp, Ht |- *.
      cbn [filter snd is_resize map fst] in Hsp, Ht |- *.
      fold (resize_times rest) in Hsp, Ht |- *.
      cbn [spaced] in Hsp. apply andb_prop in Hsp as [Hsp Hrest].
      apply andb_prop in Hsp as [_ Hlt]. apply Nat.ltb_lt in Hlt.
      rewrite last_cons_default in Ht |- *.
      destruct (step_resize st t' w h) as (Htm' & Hid' & _ & Hcalls).
      { right. exists id, (tl + 250). auto. }
      rewrite run_cons.
      specialize (IH (step st (t', Resize w h)) t'
                    (ex_intro _ _ (conj Htm' Hid')) Hord Hrest Ht).
      cbv zeta in IH. destruct IH as (IH1 & IH2).
      split; [exact IH1|]. rewrite IH2, Hcalls, <- app_assoc. reflexivity.
    + assert (Hrt : resize_times ((t', e) :: rest) = resize_times rest).
      { unfold resize_times. cbn [filter snd]. rewrite He. reflexivity. }
      rewrite Hrt in *. rewrite run_cons.
      destruct (Nat.lt_ge_cases t' (tl + 250)) as [Hlt | Hge].
      * destruct (step_other_idle st t' e He) as (Hcalls & Htm' & Hid').
        { right. exists id, (tl + 250). auto. }
        rewrite Htm in Htm'. rewrite Hid in Hid'.
        specialize (IH (step st (t', e)) tl
                      (ex_intro _ _ (conj Htm' Hid'))
                      (ordered_weaken tl t' rest Hle Hord) Hsp Ht).
        cbv zeta in IH. rewrite Hcalls in IH. exact IH.
      * assert (Hnone : resize_times rest = []).
        { pose proof (ordered_resize_times t' rest Hord) as Hall.
          destruct (resize_times rest) as [|t'' l]; [reflexivity|].
          inversion Hall; subst. cbn [spaced] in Hsp.
          apply andb_prop in Hsp as [Hsp _]. apply andb_prop in Hsp as [_ Hlt].
          apply Nat.ltb_lt in Hlt. lia. }
        rewrite Hnone in *. cbn [last map app] in *.
        destruct (advance_fires st id (tl + 250) t' Htm Hge) as (Hf1 & Hf2).
        destruct (dispatch_other_host e (advance t' st) He) as (Hc & Htm2 & _).
        destruct (run_quiet rest (step st (t', e))) as (Hq1 & Hq2).
        { unfold step. cbn [fst snd]. rewrite Htm2. exact Hf1. }
        { exact Hnone. }
        rewrite advance_idle by (left; exact Hq1).
        change (timers (set_clock t ?x)) with (timers x).
        change (calls (set_clock t ?x)) with (calls x).
        rewrite Hq1, Hq2. unfold step. cbn [fst snd]. rewrite Hc, Hf2. auto.
Qed.

(** Before the first [resize], and from it on. *)
Lemma run_resizes (evs : list (nat * Event T)) (st : State T) (t0 tN t : nat) :
  timers st = [] ->
  ordered t0 evs = true ->
  burst (resize_times evs) = true ->
  last (resize_times evs) 0 = tN ->
  tN + 250 <= t ->
  let st' := advance t (run evs st) in
  timers st' = []
  /\ calls st' =
       calls st ++ map (fun t => (t, CallResizeCanvas)) (resize_times evs)
         ++ [(tN + 250, CallResizeCanvas); (tN + 250, CallInitParticles)].
Proof.
  revert st t0. induction evs as [|[t' e] rest IH]; intros st t0 Htm Hord Hb HtN Ht.
  - discriminate.
  - cbn [ordered fst] in Hord. apply andb_prop in Hord as [_ Hord].
    destruct (is_resize e) eqn:He.
    + destruct e as [w h| | | |]; try discriminate.
      unfold resize_times in Hb, HtN |- *.
      cbn [filter snd is_resize map fst] in Hb, HtN |- *.
      fold (resize_times rest) in Hb, HtN |- *.
      cbn [burst] in Hb. rewrite last_cons_default in HtN.
      destruct (step_resize st t' w h (or_introl Htm)) as (Htm' & Hid' & _ & Hcalls).
      rewrite run_cons. subst tN.
      destruct (run_pending rest (step st (t', Resize w h)) t' t
                  (ex_intro _ _ (conj Htm' Hid')) Hord Hb Ht) as (H1 & H2).
      split; [exact H1|].
      rewrite H2, Hcalls, <- app_assoc. reflexivity.
    + assert (Hrt : resize_times ((t', e) :: rest) = resize_times rest).
      { unfold resize_times. cbn [filter snd]. rewrite He. reflexivity. }
      rewrite Hrt in *. rewrite run_cons.
      destruct (step_other_idle st t' e He (or_introl Htm)) as (Hcalls & Htm' & _).
      rewrite Htm in Htm'.
      specialize (IH (step st (t', e)) t' Htm' Hord Hb HtN Ht).
      cbv zeta in IH. rewrite Hcalls in IH. exact IH.
Qed.

Lemma times_of_app (c : Call) (l1 l2 : list (nat * Call)) :
  times_of c (l1 ++ l2) = times_of c l1 ++ times_of c l2.
Proof. unfold times_of. rewrite filter_app, map_app. reflexivity. Qed.

Lemma times_of_resizes (ts : list nat) :
  times_of CallResizeCanvas (map (fun t => (t, CallResizeCanvas)) ts) = ts
  /\ times_of CallInitParticles (map (fun t => (t, CallResizeCanvas)) ts) = [].
Proof.
  induction ts as [|t ts [IH1 IH2]]; [split; reflexivity|].
  unfold times_of in *. cbn [map filter snd fst]. rewrite IH1, IH2.
  split; reflexivity.
Qed.

(** C5, for [initParticles]; [resizeCanvas] is also called at each
    event.  Take a run of events in the order of their
    times, started with no timer pending, in which each [resize]
    comes less than 250 ms after the one before, the last of them at
    time tN; frames, pointer moves and theme changes may come in
    between and after.  Once the clock has reached tN + 250:
    [initParticles] has been called once, at tN + 250, and
    [resizeCanvas] once at each [resize] event, by the first
    listener, and once more at tN + 250; no timer is left. *)
Theorem C5_resize_debounce
    (evs : list (nat * Event T)) (st : State T) (tN t : nat) :
  timers st = [] ->
  ordered (clock st) evs = true ->
  burst (resize_times evs) = true ->
  last (resize_times evs) 0 = tN ->
  tN + 250 <= t ->
  let st' := advance t (run evs st) in
  times_of CallInitParticles (calls st')
    = times_of CallInitParticles (calls st) ++ [tN + 250]
  /\ times_of CallResizeCanvas (calls st')
    = times_of CallResizeCanvas (calls st) ++ resize_times evs ++ [tN + 250]
  /\ timers st' = [].
Proof.
  intros Htm Hord Hb HtN Ht st'.
  destruct (run_resizes evs st (clock st) tN t Htm Hord Hb HtN Ht) as (H1 & H2).
  fold st' in H1, H2. rewrite H2, !times_of_app.
  destruct (times_of_resizes (resize_times evs)) as (Hr1 & Hr2).
  rewrite Hr1, Hr2. auto.
Qed.

End Debounce.

Section ResizeDebounceExamples.

Local Open Scope R_scope.

Lemma C5_resize_debounce_witness :
  let st := mkState 1024 768 (mkSurface 1024 768 (Mouse.mk None None) false)
              [] None 0 [] 0 (mkRng (fun _ => 1 / 2) 0) [] [] in
  let evs := [(10%nat, Resize 1000 768); (40%nat, Frame);
              (120%nat, Resize 900 700); (200%nat, MouseMove 5 5)] in
  let st' := advance 400 (run evs st) in
  times_of CallInitParticles (calls st') = [370%nat]
  /\ times_of CallResizeCanvas (calls st') = [10%nat; 120%nat; 370%nat]
  /\ timers st' = [].
Proof.
  intros st evs.
  apply (C5_resize_debounce evs st 120 400); first [reflexivity | simpl; lia].
Defined.

(** C5 does not hold for the resizing of the surface: of two [resize] events
    100 ms apart, each resizes the canvas at once, at 0 and at 100,
    and the timer resizes it a third time at 350. *)
Lemma C5_counterexample_canvas_resized_at_once :
  let st := mkState 1024 768 (mkSurface 1024 768 (Mouse.mk None None) false)
              [] None 0 [] 0 (mkRng (fun _ => 1 / 2) 0) [] [] in
  let evs := [(0%nat, Resize 1000 768); (100%nat, Resize 900 700)] in
  let st' := advance 350 (run evs st) in
  times_of CallResizeCanvas (calls st') = [0%nat; 100%nat; 350%nat]
  /\ length (times_of CallResizeCanvas (calls st')) <> 1%nat.
Proof.
  intros st evs st'.
  assert (H : calls st' =
              [(0%nat, CallResizeCanvas); (100%nat, CallResizeCanvas);
               (350%nat, CallResizeCanvas); (350%nat, CallInitParticles)]).
  { apply (run_resizes evs st 0 100 350); first [reflexivity | simpl; lia]. }
  rewrite H. split; [reflexivity | discriminate].
Qed.

End ResizeDebounceExamples.

Section CursorConvergence.

Local Open Scope R_scope.

Lemma frames_S (k : nat) (c : CursorState R) :
  frames (S k) c = animateCursor (frames k c).
Proof. reflexivity. Qed.


(** The closed form on one axis. *)
Lemma lerp_closed_form (t c0 : R) (k : nat) :
  let f c := c + (t - c) * (1 / 10) in
  Nat.iter k f c0 = t - (t - c0) * (1 - 0.1) ^ k.
Proof.
  intros f. induction k as [|k IH]; simpl.
  - lra.
  - rewrite IH. unfold f. lra.
Qed.





End CursorConvergence.

Section HueCycle.

Local Open Scope R_scope.











End HueCycle.

Section NoDivisionByZero.

Local Open Scope R_scope.

Lemma checked_update_hue (h : R) :
  update_hue (N := CheckedNumber) (Some h) = Some (update_hue h).
Proof.
  unfold update_hue. checked_ops.
  destruct (Req_dec_T (360 / 1) 0) as [E | _]; [exfalso; lra | reflexivity].
Qed.

Lemma checked_repel (m : Mouse.t R) (p : Particle.t R) :
  repel (N := CheckedNumber) (inj_mouse m) (inj_particle p)
  = inj_vec (repel m p).
Proof.
  unfold repel, repelRadius, maxForce, inj_mouse, inj_particle.
  cbn [Mouse.x Mouse.y Particle.x Particle.y Particle.velocity].
  destruct (Mouse.x m) as [mx|], (Mouse.y m) as [my|]; cbn [option_map];
    try reflexivity.
  checked_ops.
  destruct (RealNum.Rltb _ _); [|reflexivity].
  destruct (Req_dec_T (100 / 1) 0) as [E | _]; [exfalso; lra | reflexivity].
Qed.

Lemma checked_friction (v : Vec.t R) :
  friction (N := CheckedNumber) (inj_vec v) = inj_vec (friction v).
Proof. reflexivity. Qed.

Lemma checked_speed_cap (v : Vec.t R) :
  speed_cap (N := CheckedNumber) (inj_vec v) = inj_vec (speed_cap v).
Proof.
  unfold speed_cap, speed_of, maxSpeed, inj_vec. cbn [Vec.x Vec.y]. checked_ops.
  destruct (RealNum.Rltb _ _) eqn:E; [|reflexivity].
  apply Rltb_true in E.
  destruct (Req_dec_T _ 0) as [E0 | _]; [exfalso; rewrite E0 in E; lra | reflexivity].
Qed.

Lemma checked_jitter (v : Vec.t R) (g : Rng R) :
  jitter (N := CheckedNumber) (inj_vec v) (inj_rng g)
  = (inj_vec (fst (jitter v g)), inj_rng (snd (jitter v g))).
Proof.
  unfold jitter, jitter_axis, bind, random, ret, inj_vec, inj_rng.
  cbn [Vec.x Vec.y]. checked_ops.
  destruct (RealNum.Rltb (Rabs (Vec.x v)) _), (RealNum.Rltb (Rabs (Vec.y v)) _);
    reflexivity.
Qed.

Lemma checked_bounce_axis (pos r dim vel : R) :
  bounce_axis (N := CheckedNumber) (Some pos) (Some r) (Some dim) (Some vel)
  = (Some (fst (bounce_axis pos r dim vel)), Some (snd (bounce_axis pos r dim vel))).
Proof.
  unfold bounce_axis. checked_ops.
  destruct (RealNum.Rltb (pos - r) _); [reflexivity|].
  destruct (RealNum.Rltb dim _); reflexivity.
Qed.

Lemma repel_at_pointer (m : Mouse.t R) (p : Particle.t R) :
  Mouse.x m = Some (Particle.x p) -> Mouse.y m = Some (Particle.y p) ->
  repel m p = Vec.mk (Vec.x (Particle.velocity p) + 2)
                     (Vec.y (Particle.velocity p) + 0).
Proof.
  intros Hx Hy. unfold repel, repelRadius, maxForce. rewrite Hx, Hy. real_ops.
  replace (Particle.x p - Particle.x p) with 0 by lra.
  replace (Particle.y p - Particle.y p) with 0 by lra.
  replace (0 * 0 + 0 * 0) with 0 by lra. rewrite sqrt_0.
  assert (Ha : RealNum.Ratan2 0 0 = 0).
  { unfold RealNum.Ratan2. decide_Rlt. reflexivity. }
  rewrite Ha, cos_0, sin_0.
  unfold RealNum.Rltb. decide_Rlt. f_equal; lra.
Qed.

(** C8.  [update] over the checked numbers, where a division by zero
    gives no number, computes the numbers that [update] computes: it
    divides by 360, by 100 and, when the speed is above 1.5, by the
    speed, and never by zero.  With the pointer on the particle the
    repulsion adds 2 to velocity.x and 0 to velocity.y. *)
Theorem C8_no_division_by_zero (s : Surface R) (p : Particle.t R) (g : Rng R) :
  update (N := CheckedNumber) (inj_surface s) (inj_particle p) (inj_rng g)
  = (inj_particle (fst (fst (update s p g))),
     inj_disc (snd (fst (update s p g))),
     inj_rng (snd (update s p g)))
  /\ (Mouse.x (mouse s) = Some (Particle.x p) ->
      Mouse.y (mouse s) = Some (Particle.y p) ->
      repel (mouse s) p = Vec.mk (Vec.x (Particle.velocity p) + 2)
                                 (Vec.y (Particle.velocity p) + 0)).
Proof.
  split; [|apply repel_at_pointer].
  rewrite !update_settle. cbn [fst snd].
  assert (Hc : capped_velocity (N := CheckedNumber) (inj_surface s) (inj_particle p)
               = inj_vec (capped_velocity s p)).
  { unfold capped_velocity. cbn [mouse inj_surface].
    rewrite checked_repel, checked_friction, checked_speed_cap. reflexivity. }
  rewrite Hc, checked_jitter. cbn [fst snd].
  set (v := fst (jitter (capped_velocity s p) g)).
  assert (Hs : settle (N := CheckedNumber) (inj_surface s) (inj_particle p) (inj_vec v)
               = inj_particle (settle s p v)).
  { unfold settle, inj_particle, inj_surface, inj_vec.
    cbn [Particle.x Particle.y Particle.radius Particle.velocity Particle.hue
         Vec.x Vec.y canvas_width canvas_height].
    rewrite checked_update_hue.
    change (@add _ CheckedNumber (Some ?a) (Some ?b)) with (Some (a + b)).
    rewrite !checked_bounce_axis. reflexivity. }
  rewrite Hs. reflexivity.
Qed.

Lemma C8_no_division_by_zero_witness :
  let s := mkSurface 100 100 (Mouse.mk (Some 50) (Some 40)) false in
  let p := Particle.mk 50 40 1 (Vec.mk 0 0) 0 in
  repel (mouse s) p = Vec.mk (0 + 2) (0 + 0).
Proof.
  intros s p.
  apply (proj2 (C8_no_division_by_zero s p (mkRng (fun _ => 0) 0))); reflexivity.
Defined.

End NoDivisionByZero.

Section ParticleCount.

Local Open Scope R_scope.

(** C9.  [initParticles] leaves a collection made of new particles
    only, whatever the collection was before: 40 of them when the
    width of the viewport is below 768, and 80 otherwise. *)
Theorem C9_particle_count (st : State R) :
  (innerWidth st < 768 -> length (particles (initParticles st)) = 40%nat)
  /\ (768 <= innerWidth st -> length (particles (initParticles st)) = 80%nat)
  /\ (forall ps, particles (initParticles (set_particles ps st))
                 = particles (initParticles st))
  /\ particles (initParticles st)
     = fst (push_particles (length (particles (initParticles st)))
              (surface st) [] (rng st)).
Proof.
  assert (Hlen : length (particles (initParticles st))
                 = particleCount (innerWidth st)).
  { rewrite initParticles_particles, push_particles_length. reflexivity. }
  split; [|split; [|split]].
  - intros H. rewrite Hlen. unfold particleCount. real_ops.
    replace (768 / 1) with 768 by lra.
    apply Rltb_true in H. rewrite H. reflexivity.
  - intros H. rewrite Hlen. unfold particleCount. real_ops.
    replace (768 / 1) with 768 by lra.
    apply Rltb_false in H. rewrite H. reflexivity.
  - intros ps. rewrite !initParticles_particles. reflexivity.
  - rewrite Hlen. apply initParticles_particles.
Qed.

Lemma C9_particle_count_witness :
  let page w :=
    mkState w 600 (mkSurface w 600 (Mouse.mk None None) false)
      [] None 0 [] 0 (mkRng (fun _ => 1 / 2) 0) [] [] in
  length (particles (initParticles (page 500))) = 40%nat
  /\ length (particles (initParticles (page 1024))) = 80%nat.
Proof.
  intros page. split.
  - apply (proj1 (C9_particle_count (page 500))). simpl. lra.
  - apply (proj1 (proj2 (C9_particle_count (page 1024)))). simpl. lra.
Defined.

End ParticleCount.

Section Determinism.

Context {T : Type} {N : Number T}.
Local Open Scope num_scope.

(** C10.  Two runs of [update] from the same particle, with the same
    pointer and the same canvas size, leave the same particle when
    the velocity that friction and the speed cap leave passes neither
    test [Math.abs (...) < 0.05]: the random draws are not read, nor
    anything else. *)
Theorem C10_deterministic_without_jitter
    (s1 s2 : Surface T) (p1 p2 : Particle.t T) (g1 g2 : Rng T) :
  p1 = p2 ->
  mouse s1 = mouse s2 ->
  canvas_width s1 = canvas_width s2 ->
  canvas_height s1 = canvas_height s2 ->
  (abs (Vec.x (capped_velocity s1 p1)) <? lit 5 100) = false ->
  (abs (Vec.y (capped_velocity s1 p1)) <? lit 5 100) = false ->
  fst (fst (update s1 p1 g1)) = fst (fst (update s2 p2 g2)).
Proof.
  intros <- Hm Hw Hh Hx Hy.
  assert (Hc : capped_velocity s2 p1 = capped_velocity s1 p1).
  { unfold capped_velocity. rewrite Hm. reflexivity. }
  rewrite !update_settle. cbn [fst]. rewrite Hc.
  rewrite !jitter_moving by assumption. cbn [fst].
  unfold settle. rewrite Hw, Hh. reflexivity.
Qed.

End Determinism.

Section DeterminismExample.

Local Open Scope R_scope.

Lemma C10_deterministic_without_jitter_witness :
  let s := mkSurface 100 100 (Mouse.mk None None) false in
  let s' := mkSurface 100 100 (Mouse.mk None None) true in
  let p := Particle.mk 50 50 1 (Vec.mk 1 1) 0 in
  fst (fst (update s p (mkRng (fun _ => 0) 0)))
  = fst (fst (update s' p (mkRng (fun _ => 9 / 10) 7))).
Proof.
  intros s s' p.
  assert (Hc : capped_velocity s p = Vec.mk (1 * (97 / 100)) (1 * (97 / 100))).
  { unfold capped_velocity, speed_cap, speed_of, friction, repel, maxSpeed.
    cbn [mouse Mouse.x s p Particle.velocity Vec.x Vec.y]. real_ops.
    assert (Hs : R_sqrt.sqrt (1 * (97 / 100) * (1 * (97 / 100))
                              + 1 * (97 / 100) * (1 * (97 / 100))) <= 15 / 10).
    { apply sqrt_le_bound; lra. }
    apply Rltb_false in Hs. rewrite Hs. reflexivity. }
  apply (C10_deterministic_without_jitter s s' p p); try reflexivity;
    rewrite Hc; cbn [Vec.x Vec.y]; real_ops; apply Rltb_false;
    rewrite Rabs_right; lra.
Defined.

End DeterminismExample.

(* ================================================================== *)
(** ** The same runs on binary64

    The inputs of the counterexamples, evaluated in the arithmetic of
    the program.  The pointer is absent in each, so the three
    trigonometric functions are not called and may be any functions. *)

Section Binary64.

Variables (cosf sinf : float -> float) (atan2f : float -> float -> float).

Local Open Scope float_scope.

(** The input of the counterexamples to C1 and C4: x = radius = 2 is
    above width - radius = 1, and x + radius was above the width. *)
Example narrow_surface_binary64 :
  let F := FloatNumber cosf sinf atan2f in
  let s := mkSurface 3 100 (Mouse.mk None None) false in
  let p := Particle.mk 1.5 50 2 (Vec.mk 0 0) 0 in
  let g := mkRng (fun _ : nat => 0.5) 0 in
  let v := fst (jitter (N := F) (capped_velocity (N := F) s p) g) in
  let p' := fst (fst (update (N := F) s p g)) in
  Particle.x p' = 2
  /\ PrimFloat.leb (Particle.x p') (canvas_width s - Particle.radius p') = false
  /\ PrimFloat.ltb (canvas_width s) (Particle.x p + Vec.x v + Particle.radius p)
     = true.
Proof. vm_compute. repeat split. Qed.

(** The input of the counterexample to C2: the speed that [update]
    leaves is above [maxSpeed]. *)
Example jitter_after_cap_binary64 :
  let F := FloatNumber cosf sinf atan2f in
  let s := mkSurface 100 100 (Mouse.mk None None) false in
  let p := Particle.mk 50 50 1 (Vec.mk 0 2) 0 in
  let g := mkRng (fun _ : nat => PrimFloat.div 9 10) 0 in
  let v := Particle.velocity (fst (fst (update (N := F) s p g))) in
  Vec.y v = 1.5
  /\ PrimFloat.ltb (maxSpeed (N := F)) (speed_of (N := F) v) = true.
Proof. vm_compute. split; reflexivity. Qed.

(** The input of the counterexample to C5. *)
Example canvas_resized_at_once_binary64 :
  let F := FloatNumber cosf sinf atan2f in
  let st := mkState 1024 768 (mkSurface 1024 768 (Mouse.mk None None) false)
              [] None 0 [] 0 (mkRng (fun _ : nat => 0.5) 0) [] [] in
  let evs := [(0%nat, Resize 1000 768); (100%nat, Resize 900 700)] in
  calls (advance (N := F) 350 (run (N := F) evs st))
  = [(0%nat, CallResizeCanvas); (100%nat, CallResizeCanvas);
     (350%nat, CallResizeCanvas); (350%nat, CallInitParticles)].
Proof. vm_compute. reflexivity. Qed.

(** The two widths of the specification. *)
Example particle_count_binary64 :
  let F := FloatNumber cosf sinf atan2f in
  let page w :=
    mkState w 600 (mkSurface w 600 (Mouse.mk None None) false)
      [] None 0 [] 0 (mkRng (fun _ : nat => 0.5) 0) [] [] in
  length (particles (initParticles (N := F) (page 500))) = 40%nat
  /\ length (particles (initParticles (N := F) (page 1024))) = 80%nat.
Proof. vm_compute. split; reflexivity. Qed.

End Binary64.

(* ================================================================== *)
(** ** Class lists *)

Section ClassListFacts.

Lemma contains_app (c : String.string) (l1 l2 : ClassList.t) :
  ClassList.contains c (l1 ++ l2)
  = ClassList.contains c l1 || ClassList.contains c l2.
Proof. unfold ClassList.contains. apply existsb_app. Qed.

Lemma contains_add_same (c : String.string) (l : ClassList.t) :
  ClassList.contains c (ClassList.add c l) = true.
Proof.
  unfold ClassList.add. destruct (ClassList.contains c l) eqn:E; [exact E|].
  rewrite contains_app, E. cbn. rewrite String.eqb_refl. reflexivity.
Qed.

Lemma contains_add_other (c d : String.string) (l : ClassList.t) :
  c <> d -> ClassList.contains d (ClassList.add c l) = ClassList.contains d l.
Proof.
  intros Hcd. unfold ClassList.add.
  destruct (ClassList.contains c l); [reflexivity|].
  rewrite contains_app. cbn.
  apply not_eq_sym in Hcd. apply String.eqb_neq in Hcd. rewrite Hcd.
  rewrite !orb_false_r. reflexivity.
Qed.

Lemma contains_remove_same (c : String.string) (l : ClassList.t) :
  ClassList.contains c (ClassList.remove c l) = false.
Proof.
  unfold ClassList.contains, ClassList.remove.
  induction l as [|x l IH]; [reflexivity|]. cbn.
  destruct (String.eqb c x) eqn:E; cbn; [exact IH|]. rewrite E. exact IH.
Qed.

Lemma contains_remove_other (c d : String.string) (l : ClassList.t) :
  c <> d -> ClassList.contains d (ClassList.remove c l) = ClassList.contains d l.
Proof.
  intros Hcd. unfold ClassList.contains, ClassList.remove.
  induction l as [|x l IH]; [reflexivity|]. cbn.
  destruct (String.eqb c x) eqn:E; cbn.
  - apply String.eqb_eq in E. subst x.
    apply not_eq_sym in Hcd. apply String.eqb_neq in Hcd. rewrite Hcd. exact IH.
  - rewrite IH. reflexivity.
Qed.

Lemma contains_toggle_same (c : String.string) (l : ClassList.t) :
  ClassList.contains c (ClassList.toggle c l) = negb (ClassList.contains c l).
Proof.
  unfold ClassList.toggle. destruct (ClassList.contains c l) eqn:E.
  - apply contains_remove_same.
  - rewrite contains_app, E. cbn. rewrite String.eqb_refl. reflexivity.
Qed.

Lemma contains_toggle_other (c d : String.string) (l : ClassList.t) :
  c <> d -> ClassList.contains d (ClassList.toggle c l) = ClassList.contains d l.
Proof.
  intros Hcd. unfold ClassList.toggle. destruct (ClassList.contains c l).
  - apply contains_remove_other. exact Hcd.
  - rewrite contains_app. cbn.
    apply not_eq_sym in Hcd. apply String.eqb_neq in Hcd. rewrite Hcd.
    rewrite !orb_false_r. reflexivity.
Qed.

Lemma has_class_add_same (c : String.string) (el : option ClassList.t) :
  el <> None -> has_class c (if_present (ClassList.add c) el) = true.
Proof. destruct el; [intros _; apply contains_add_same | congruence]. Qed.

Lemma has_class_remove_same (c : String.string) (el : option ClassList.t) :
  has_class c (if_present (ClassList.remove c) el) = false.
Proof. destruct el; [apply contains_remove_same | reflexivity]. Qed.

Lemma has_class_add_other (c d : String.string) (el : option ClassList.t) :
  c <> d -> has_class d (if_present (ClassList.add c) el) = has_class d el.
Proof. intros H. destruct el; [apply contains_add_other; exact H | reflexivity]. Qed.

Lemma has_class_remove_other (c d : String.string) (el : option ClassList.t) :
  c <> d -> has_class d (if_present (ClassList.remove c) el) = has_class d el.
Proof.
  intros H. destruct el; [apply contains_remove_other; exact H | reflexivity].
Qed.

End ClassListFacts.

(* ================================================================== *)
(** ** The theme toggle *)

Section ThemeToggleFacts.

Local Open Scope string_scope.

Lemma icon_hidden_add (el : option ClassList.t) :
  icon_hidden true (if_present (ClassList.add "hidden") el).
Proof. destruct el; cbn; [apply contains_add_same | exact I]. Qed.

Lemma icon_hidden_remove (el : option ClassList.t) :
  icon_hidden false (if_present (ClassList.remove "hidden") el).
Proof. destruct el; cbn; [apply contains_remove_same | exact I]. Qed.

Lemma setIconState_root (pg : ThemePage) :
  root_classList (setIconState pg) = root_classList pg
  /\ localStorage_theme (setIconState pg) = localStorage_theme pg
  /\ themeToggleBtn (setIconState pg) = themeToggleBtn pg
  /\ themeToggleBtnDesktop (setIconState pg) = themeToggleBtnDesktop pg.
Proof.
  unfold setIconState.
  destruct (ClassList.contains "dark" (root_classList pg)); repeat split.
Qed.

Lemma setIconState_agree (pg : ThemePage) : icons_agree (setIconState pg).
Proof.
  unfold icons_agree, is_dark.
  destruct (setIconState_root pg) as (Hr & _). rewrite Hr.
  unfold setIconState.
  destruct (ClassList.contains "dark" (root_classList pg)); cbn;
    repeat split;
    first [apply icon_hidden_add | apply icon_hidden_remove].
Qed.

(** X1.  [setIconState] hides, of the icons that are on the page, the
    two light icons in dark mode and the two dark icons otherwise, and
    shows the other two.  It adds and removes no other class: each icon
    keeps every class but [hidden], a missing icon stays missing, and
    the root element and [localStorage.theme] are as they were. *)
Theorem X1_setIconState (pg : ThemePage) :
  let pg' := setIconState pg in
  icons_agree pg'
  /\ root_classList pg' = root_classList pg
  /\ localStorage_theme pg' = localStorage_theme pg
  /\ (forall c, c <> "hidden" ->
        has_class c (themeToggleDarkIcon pg') = has_class c (themeToggleDarkIcon pg)
        /\ has_class c (themeToggleLightIcon pg') = has_class c (themeToggleLightIcon pg)
        /\ has_class c (themeToggleDarkIconDesktop pg')
           = has_class c (themeToggleDarkIconDesktop pg)
        /\ has_class c (themeToggleLightIconDesktop pg')
           = has_class c (themeToggleLightIconDesktop pg))
  /\ (themeToggleDarkIcon pg = None -> themeToggleDarkIcon pg' = None)
  /\ (themeToggleLightIcon pg = None -> themeToggleLightIcon pg' = None)
  /\ (themeToggleDarkIconDesktop pg = None -> themeToggleDarkIconDesktop pg' = None)
  /\ (themeToggleLightIconDesktop pg = None -> themeToggleLightIconDesktop pg' = None).
Proof.
  intros pg'. subst pg'.
  split; [apply setIconState_agree|].
  destruct (setIconState_root pg) as (Hr & Hs & _).
  split; [exact Hr|]. split; [exact Hs|].
  unfold setIconState.
  destruct (ClassList.contains "dark" (root_classList pg)); cbn.
  - split.
    + intros c Hc. apply not_eq_sym in Hc.
      repeat split;
        first [apply has_class_add_other | apply has_class_remove_other];
        exact Hc.
    + repeat split; intros ->; reflexivity.
  - split.
    + intros c Hc. apply not_eq_sym in Hc.
      repeat split;
        first [apply has_class_add_other | apply has_class_remove_other];
        exact Hc.
    + repeat split; intros ->; reflexivity.
Qed.

Lemma X1_setIconState_witness :
  let pg := mkThemePage ["h-full"; "dark"] None
              (Some ["w-5"; "hidden"]) (Some ["w-5"]) None (Some ["hidden"])
              true false in
  has_class "w-5" (themeToggleLightIcon (setIconState pg)) = true
  /\ themeToggleDarkIconDesktop (setIconState pg) = None.
Proof.
  intros pg.
  destruct (X1_setIconState pg) as (_ & _ & _ & Hc & _ & _ & Hn & _).
  split.
  - rewrite (proj1 (proj2 (Hc "w-5" ltac:(discriminate)))). reflexivity.
  - apply Hn. reflexivity.
Defined.

Lemma toggleTheme_dark (pg : ThemePage) :
  is_dark (toggleTheme pg) = negb (is_dark pg).
Proof.
  unfold is_dark, toggleTheme.
  rewrite (proj1 (setIconState_root _)). cbn [root_classList].
  apply contains_toggle_same.
Qed.

Lemma toggleTheme_storage (pg : ThemePage) :
  localStorage_theme (toggleTheme pg)
  = Some (if is_dark (toggleTheme pg) then "dark" else "light").
Proof.
  rewrite toggleTheme_dark. unfold toggleTheme.
  rewrite (proj1 (proj2 (setIconState_root _))). cbn [localStorage_theme].
  unfold is_dark. rewrite contains_toggle_same. reflexivity.
Qed.

Lemma toggleTheme_buttons (pg : ThemePage) :
  themeToggleBtn (toggleTheme pg) = themeToggleBtn pg
  /\ themeToggleBtnDesktop (toggleTheme pg) = themeToggleBtnDesktop pg.
Proof.
  unfold toggleTheme.
  destruct (setIconState_root
              (mkThemePage (ClassList.toggle "dark" (root_classList pg))
                 (Some (if ClassList.contains "dark"
                              (ClassList.toggle "dark" (root_classList pg))
                        then "dark" else "light"))
                 (themeToggleDarkIcon pg) (themeToggleLightIcon pg)
                 (themeToggleDarkIconDesktop pg) (themeToggleLightIconDesktop pg)
                 (themeToggleBtn pg) (themeToggleBtnDesktop pg)))
    as (_ & _ & Hb & Hd).
  rewrite Hb, Hd. split; reflexivity.
Qed.

Lemma toggleTheme_agree (pg : ThemePage) : icons_agree (toggleTheme pg).
Proof. unfold toggleTheme. apply setIconState_agree. Qed.

Lemma effective_clicks_toggle (pg : ThemePage) (bs : list ThemeButton) :
  effective_clicks (toggleTheme pg) bs = effective_clicks pg bs.
Proof.
  unfold effective_clicks. destruct (toggleTheme_buttons pg) as [Hb Hd].
  rewrite Hb, Hd. reflexivity.
Qed.

Lemma theme_clicks_inv (bs : list ThemeButton) (pg : ThemePage) :
  icons_agree pg ->
  let pg' := theme_clicks bs pg in
  let n := effective_clicks pg bs in
  is_dark pg' = (if Nat.even n then is_dark pg else negb (is_dark pg))
  /\ icons_agree pg'
  /\ (1 <= n ->
      localStorage_theme pg' = Some (if is_dark pg' then "dark" else "light"))
  /\ (n = 0 -> pg' = pg).
Proof.
  revert pg. induction bs as [|b bs IH]; intros pg Hag.
  - cbn. split; [reflexivity | split; [exact Hag | split; [lia | reflexivity]]].
  - cbv zeta.
    change (theme_clicks (b :: bs) pg) with (theme_clicks bs (theme_click b pg)).
    assert (Hcases :
      (theme_click b pg = toggleTheme pg
       /\ effective_clicks pg (b :: bs) = S (effective_clicks pg bs))
      \/ (theme_click b pg = pg
          /\ effective_clicks pg (b :: bs) = effective_clicks pg bs)).
    { unfold theme_click, effective_clicks. cbn [filter].
      destruct b; [destruct (themeToggleBtn pg) | destruct (themeToggleBtnDesktop pg)];
        cbn [length]; auto. }
    destruct Hcases as [[Hc Hn] | [Hc Hn]]; rewrite Hc, Hn.
    + specialize (IH (toggleTheme pg) (toggleTheme_agree pg)). cbv zeta in IH.
      rewrite effective_clicks_toggle, toggleTheme_dark in IH.
      destruct IH as (Hd & Ha & Hs & Hz).
      split; [|split; [exact Ha | split; [|lia]]].
      * rewrite Hd, Nat.even_succ, <- Nat.negb_even.
        destruct (Nat.even (effective_clicks pg bs)), (is_dark pg); reflexivity.
      * intros _. destruct (effective_clicks pg bs) as [|k] eqn:Ek.
        -- rewrite (Hz eq_refl). apply toggleTheme_storage.
        -- apply Hs. lia.
    + exact (IH pg Hag).
Qed.

(** X2.  After [setupThemeToggle] and any clicks on the two buttons,
    the icons agree with the theme; the theme is the one of the start
    after an even number of clicks on buttons of the page, and the other
    one after an odd number; once a button of the page has been clicked,
    [localStorage.theme] is [dark] or [light] as the theme is.  Clicks
    on a button that is not on the page leave [localStorage.theme]
    alone. *)
Theorem X2_theme_clicks (pg : ThemePage) (bs : list ThemeButton) :
  let pg' := theme_clicks bs (setupThemeToggle pg) in
  let n := effective_clicks pg bs in
  is_dark pg' = (if Nat.even n then is_dark pg else negb (is_dark pg))
  /\ icons_agree pg'
  /\ (1 <= n ->
      localStorage_theme pg' = Some (if is_dark pg' then "dark" else "light"))
  /\ (n = 0 -> localStorage_theme pg' = localStorage_theme pg).
Proof.
  intros pg' n. subst pg' n. unfold setupThemeToggle.
  destruct (setIconState_root pg) as (Hr & Hs & Hb & Hd).
  assert (He : effective_clicks (setIconState pg) bs = effective_clicks pg bs).
  { unfold effective_clicks. rewrite Hb, Hd. reflexivity. }
  assert (Hdk : is_dark (setIconState pg) = is_dark pg).
  { unfold is_dark. rewrite Hr. reflexivity. }
  destruct (theme_clicks_inv bs (setIconState pg) (setIconState_agree pg))
    as (H1 & H2 & H3 & H4).
  rewrite He, Hdk in *.
  split; [exact H1|]. split; [exact H2|]. split; [exact H3|].
  intros Hn. rewrite (H4 Hn). exact Hs.
Qed.

Lemma X2_theme_clicks_witness :
  let pg := mkThemePage ["dark"] None (Some []) (Some []) None None true false in
  let pg' := theme_clicks [MobileButton; DesktopButton; MobileButton]
               (setupThemeToggle pg) in
  localStorage_theme pg' = Some (if is_dark pg' then "dark" else "light").
Proof.
  intros pg pg'.
  apply (proj1 (proj2 (proj2
           (X2_theme_clicks pg [MobileButton; DesktopButton; MobileButton])))).
  cbn. lia.
Defined.

End ThemeToggleFacts.

(* ================================================================== *)
(** ** The mobile menu *)

Section MobileMenuFacts.

Local Open Scope string_scope.

Lemma menu_advance_idle (t : nat) (pg : MenuPage) :
  menu_timers pg = [] ->
  menu_advance t pg =
    mkMenuPage (mobileMenuButton pg) (mobileMenuSlide pg) (menuOverlay pg)
      (body_classList pg) t [].
Proof.
  intros H. unfold menu_advance. rewrite H. cbn [length menu_run_timers].
  rewrite H. reflexivity.
Qed.

Lemma menu_advance_waiting (t due : nat) (f : MenuTimer)
    (rest : list (nat * MenuTimer)) (pg : MenuPage) :
  menu_timers pg = (due, f) :: rest -> t < due ->
  menu_advance t pg =
    mkMenuPage (mobileMenuButton pg) (mobileMenuSlide pg) (menuOverlay pg)
      (body_classList pg) t (menu_timers pg).
Proof.
  intros H Hlt. unfold menu_advance. rewrite H. cbn [length menu_run_timers].
  rewrite H. apply Nat.leb_gt in Hlt. rewrite Hlt, H. reflexivity.
Qed.

(** The timers leave the button, the menu and the body alone, and an
    overlay that is on the page stays on it. *)
Lemma menu_run_timers_keeps (fuel t : nat) (pg : MenuPage) :
  let pg' := menu_run_timers fuel t pg in
  mobileMenuButton pg' = mobileMenuButton pg
  /\ mobileMenuSlide pg' = mobileMenuSlide pg
  /\ body_classList pg' = body_classList pg
  /\ (menuOverlay pg = None <-> menuOverlay pg' = None).
Proof.
  revert pg. induction fuel as [|fuel IH]; intros pg; cbn [menu_run_timers].
  - repeat split; auto.
  - destruct (menu_timers pg) as [|[due f] rest]; [repeat split; auto|].
    destruct (Nat.leb due t); [|repeat split; auto].
    specialize (IH (menu_fire f
                      (mkMenuPage (mobileMenuButton pg) (mobileMenuSlide pg)
                         (menuOverlay pg) (body_classList pg) due rest))).
    cbv zeta in IH. destruct IH as (H1 & H2 & H3 & H4).
    rewrite H1, H2, H3.
    split; [reflexivity|]. split; [reflexivity|]. split; [reflexivity|].
    rewrite <- H4. unfold menu_fire. cbn [menuOverlay].
    destruct f, (menuOverlay pg); cbn; split; congruence.
Qed.

Lemma menu_advance_keeps (t : nat) (pg : MenuPage) :
  let pg' := menu_advance t pg in
  mobileMenuButton pg' = mobileMenuButton pg
  /\ mobileMenuSlide pg' = mobileMenuSlide pg
  /\ body_classList pg' = body_classList pg
  /\ (menuOverlay pg = None <-> menuOverlay pg' = None).
Proof.
  unfold menu_advance. cbn [mobileMenuButton mobileMenuSlide body_classList menuOverlay].
  apply menu_run_timers_keeps.
Qed.

(** X3.  [openMenu] with no timer pending, and 10 ms or more of wait:
    the menu is in view (no [translate-x-full]), the overlay is shown
    (neither [hidden] nor [opacity-0]), the body has [overflow-hidden],
    and no timer is left.  An element that is missing is skipped. *)
Theorem X3_openMenu_settles (pg : MenuPage) (t : nat) :
  menu_timers pg = [] ->
  menu_clock pg + 10 <= t ->
  let pg' := menu_advance t (openMenu pg) in
  has_class "translate-x-full" (mobileMenuSlide pg') = false
  /\ has_class "hidden" (menuOverlay pg') = false
  /\ has_class "opacity-0" (menuOverlay pg') = false
  /\ ClassList.contains "overflow-hidden" (body_classList pg') = true
  /\ menu_timers pg' = [].
Proof.
  intros Htm Ht pg'. subst pg'.
  unfold menu_advance, openMenu, menu_setTimeout. rewrite Htm.
  destruct (menuOverlay pg) as [lo|] eqn:Eo.
  - cbn [menu_enqueue length menu_run_timers menu_timers mobileMenuButton
         mobileMenuSlide menuOverlay body_classList menu_clock fst snd if_present].
    apply Nat.leb_le in Ht. rewrite Ht.
    cbn [menu_fire mobileMenuButton mobileMenuSlide menuOverlay body_classList
         menu_clock menu_timers if_present has_class].
    split; [apply has_class_remove_same|].
    split; [rewrite contains_remove_other by discriminate;
            apply contains_remove_same|].
    split; [apply contains_remove_same|].
    split; [apply contains_add_same | reflexivity].
  - cbn [length menu_run_timers menu_timers mobileMenuButton
         mobileMenuSlide menuOverlay body_classList menu_clock if_present has_class].
    split; [apply has_class_remove_same|].
    repeat split. apply contains_add_same.
Qed.

Lemma X3_openMenu_settles_witness :
  let pg := mkMenuPage true (Some ["fixed"; "translate-x-full"])
              (Some ["hidden"; "opacity-0"]) [] 1000 [] in
  has_class "hidden" (menuOverlay (menu_advance 1010 (openMenu pg))) = false.
Proof.
  intros pg.
  apply (proj1 (proj2 (X3_openMenu_settles pg 1010 eq_refl (le_n _)))).
Defined.

(** X4.  [closeMenu] with no timer pending, and 300 ms or more of wait:
    the menu, if on the page, is out of view ([translate-x-full]); the
    overlay, if on the page, has [opacity-0] and [hidden]; the body has
    no [overflow-hidden]; no timer is left. *)
Theorem X4_closeMenu_settles (pg : MenuPage) (t : nat) :
  menu_timers pg = [] ->
  menu_clock pg + 300 <= t ->
  let pg' := menu_advance t (closeMenu pg) in
  (mobileMenuSlide pg <> None ->
   has_class "translate-x-full" (mobileMenuSlide pg') = true)
  /\ (menuOverlay pg <> None ->
      has_class "hidden" (menuOverlay pg') = true
      /\ has_class "opacity-0" (menuOverlay pg') = true)
  /\ ClassList.contains "overflow-hidden" (body_classList pg') = false
  /\ menu_timers pg' = [].
Proof.
  intros Htm Ht pg'. subst pg'.
  unfold menu_advance, closeMenu, menu_setTimeout. rewrite Htm.
  destruct (menuOverlay pg) as [lo|] eqn:Eo.
  - cbn [menu_enqueue length menu_run_timers menu_timers mobileMenuButton
         mobileMenuSlide menuOverlay body_classList menu_clock fst snd if_present].
    apply Nat.leb_le in Ht. rewrite Ht.
    cbn [menu_fire mobileMenuButton mobileMenuSlide menuOverlay body_classList
         menu_clock menu_timers if_present has_class].
    split; [apply has_class_add_same|].
    split; [intros _; split;
            [apply contains_add_same
            |rewrite contains_add_other by discriminate; apply contains_add_same]|].
    split; [apply contains_remove_same | reflexivity].
  - cbn [length menu_run_timers menu_timers mobileMenuButton
         mobileMenuSlide menuOverlay body_classList menu_clock if_present has_class].
    split; [apply has_class_add_same|].
    split; [congruence|].
    split; [apply contains_remove_same | reflexivity].
Qed.

Lemma X4_closeMenu_settles_witness :
  let pg := mkMenuPage true (Some ["fixed"]) (Some []) ["overflow-hidden"] 0 [] in
  let pg' := menu_advance 300 (closeMenu pg) in
  has_class "translate-x-full" (mobileMenuSlide pg') = true
  /\ has_class "hidden" (menuOverlay pg') = true.
Proof.
  intros pg pg'.
  destruct (X4_closeMenu_settles pg 300 eq_refl (le_n _)) as (H1 & H2 & _).
  split; [apply H1; discriminate | apply H2; discriminate].
Defined.

(** X5.  The timer of [closeMenu] is not cleared by [openMenu].  When
    the overlay is clicked and the button is clicked again less than
    300 ms later, the timer of the close still runs: once both timers
    have run the menu is in view and the body has [overflow-hidden],
    but the overlay has [hidden]. *)
Theorem X5_reopen_within_300
    (pg : MenuPage) (lo : ClassList.t) (t0 t1 t : nat) :
  menu_timers pg = [] ->
  menuOverlay pg = Some lo ->
  mobileMenuButton pg = true ->
  t0 <= t1 -> t1 < t0 + 300 ->
  t0 + 300 <= t -> t1 + 10 <= t ->
  let pg' := menu_advance t
               (menu_run [(t0, ClickOverlay); (t1, ClickMenuButton)] pg) in
  has_class "translate-x-full" (mobileMenuSlide pg') = false
  /\ ClassList.contains "overflow-hidden" (body_classList pg') = true
  /\ has_class "hidden" (menuOverlay pg') = true
  /\ has_class "opacity-0" (menuOverlay pg') = false
  /\ menu_timers pg' = [].
Proof.
  intros Htm Hov Hbtn H01 H1 Ht0 Ht1 pg'. subst pg'.
  destruct pg as [btn sl ov body clk tm]. cbn in Htm, Hov, Hbtn. subst tm ov btn.
  set (pg0 := mkMenuPage true sl (Some lo) body clk []).
  set (pg1 := mkMenuPage true
                (if_present (ClassList.add "translate-x-full") sl)
                (Some (ClassList.add "opacity-0" lo))
                (ClassList.remove "overflow-hidden" body)
                t0 [(t0 + 300, AddHidden)]).
  assert (E1 : menu_step pg0 (t0, ClickOverlay) = pg1).
  { unfold menu_step. cbn [fst snd].
    rewrite menu_advance_idle by reflexivity. reflexivity. }
  set (pg2 := mkMenuPage true
                (if_present (ClassList.remove "translate-x-full")
                   (if_present (ClassList.add "translate-x-full") sl))
                (Some (ClassList.remove "hidden" (ClassList.add "opacity-0" lo)))
                (ClassList.add "overflow-hidden"
                   (ClassList.remove "overflow-hidden" body))
                t1
                (menu_enqueue (t1 + 10, RemoveOpacity0) [(t0 + 300, AddHidden)])).
  assert (E2 : menu_step pg1 (t1, ClickMenuButton) = pg2).
  { unfold menu_step. cbn [fst snd].
    rewrite (menu_advance_waiting t1 (t0 + 300) AddHidden [])
      by first [reflexivity | lia].
    reflexivity. }
  cbn [menu_run fold_left]. rewrite E1, E2.
  assert (Hd0 : Nat.leb (t0 + 300) t = true) by (apply Nat.leb_le; lia).
  assert (Hd1 : Nat.leb (t1 + 10) t = true) by (apply Nat.leb_le; lia).
  unfold menu_advance, pg2. cbn [menu_enqueue fst snd menu_timers].
  destruct (Nat.leb (t0 + 300) (t1 + 10));
    cbn [length menu_run_timers menu_timers mobileMenuButton mobileMenuSlide
         menuOverlay body_classList menu_clock];
    rewrite ?Hd0, ?Hd1;
    cbn [menu_fire menu_run_timers menu_timers mobileMenuButton mobileMenuSlide
         menuOverlay body_classList menu_clock if_present];
    rewrite ?Hd0, ?Hd1;
    cbn [menu_fire menu_run_timers menu_timers mobileMenuButton mobileMenuSlide
         menuOverlay body_classList menu_clock if_present has_class].
  - split; [apply has_class_remove_same|].
    split; [apply contains_add_same|].
    split; [rewrite contains_remove_other by discriminate; apply contains_add_same|].
    split; [apply contains_remove_same | reflexivity].
  - split; [apply has_class_remove_same|].
    split; [apply contains_add_same|].
    split; [apply contains_add_same|].
    split; [rewrite contains_add_other by discriminate; apply contains_remove_same
           | reflexivity].
Qed.

Lemma X5_reopen_within_300_witness :
  let pg := mkMenuPage true (Some ["translate-x-full"]) (Some ["hidden"; "opacity-0"])
              [] 0 [] in
  let pg' := menu_advance 400
               (menu_run [(100, ClickOverlay); (250, ClickMenuButton)] pg) in
  has_class "translate-x-full" (mobileMenuSlide pg') = false
  /\ has_class "hidden" (menuOverlay pg') = true.
Proof.
  intros pg pg'.
  destruct (X5_reopen_within_300 pg ["hidden"; "opacity-0"] 100 250 400)
    as (H1 & _ & H3 & _); try reflexivity; try lia.
  split; assumption.
Defined.

Lemma menu_dispatch_cases (e : MenuEvent) (pg : MenuPage) :
  menu_dispatch e pg = pg \/ menu_dispatch e pg = openMenu pg
  \/ menu_dispatch e pg = closeMenu pg.
Proof.
  destruct e; cbn.
  - destruct (mobileMenuButton pg); auto.
  - destruct (menuOverlay pg); auto.
  - destruct (mobileMenuSlide pg); auto.
Qed.

Lemma menu_step_consistent (pg : MenuPage) (te : nat * MenuEvent) :
  mobileMenuSlide pg <> None -> menu_consistent pg ->
  mobileMenuSlide (menu_step pg te) <> None /\ menu_consistent (menu_step pg te).
Proof.
  intros Hs Hc. unfold menu_step.
  destruct (menu_advance_keeps (fst te) pg) as (_ & Hsl & Hb & _).
  set (pg1 := menu_advance (fst te) pg) in *.
  assert (Hs1 : mobileMenuSlide pg1 <> None) by (rewrite Hsl; exact Hs).
  assert (Hc1 : menu_consistent pg1).
  { unfold menu_consistent. rewrite Hsl, Hb. exact Hc. }
  destruct (menu_dispatch_cases (snd te) pg1) as [-> | [-> | ->]].
  - split; assumption.
  - unfold menu_consistent, openMenu. cbn [mobileMenuSlide body_classList].
    destruct (mobileMenuSlide pg1) as [ls|]; [|congruence].
    split; [discriminate|]. cbn [if_present has_class].
    rewrite contains_add_same, contains_remove_same. reflexivity.
  - unfold menu_consistent, closeMenu. cbn [mobileMenuSlide body_classList].
    destruct (mobileMenuSlide pg1) as [ls|]; [|congruence].
    split; [discriminate|]. cbn [if_present has_class].
    rewrite contains_add_same, contains_remove_same. reflexivity.
Qed.

(** X6.  On a page that has the menu, the scroll lock follows the menu
    through any clicks and any waits: if the body has [overflow-hidden]
    exactly when the menu is in view, it is so after every run. *)
Theorem X6_scroll_lock_follows_menu
    (pg : MenuPage) (evs : list (nat * MenuEvent)) (t : nat) :
  mobileMenuSlide pg <> None ->
  menu_consistent pg ->
  menu_consistent (menu_advance t (menu_run evs pg)).
Proof.
  intros Hs Hc.
  assert (H : mobileMenuSlide (menu_run evs pg) <> None
              /\ menu_consistent (menu_run evs pg)).
  { revert pg Hs Hc. induction evs as [|te evs IH]; intros pg Hs Hc.
    - split; assumption.
    - cbn [menu_run fold_left].
      destruct (menu_step_consistent pg te Hs Hc) as [Hs' Hc'].
      apply (IH (menu_step pg te) Hs' Hc'). }
  destruct H as [_ Hc'].
  destruct (menu_advance_keeps t (menu_run evs pg)) as (_ & Hsl & Hb & _).
  unfold menu_consistent. rewrite Hsl, Hb. exact Hc'.
Qed.

Lemma X6_scroll_lock_follows_menu_witness :
  let pg := mkMenuPage true (Some ["translate-x-full"]) (Some ["hidden"]) [] 0 [] in
  menu_consistent
    (menu_advance 900
       (menu_run [(10, ClickMenuButton); (20, ClickMenuLink); (500, ClickMenuButton)]
          pg)).
Proof.
  intros pg. apply X6_scroll_lock_follows_menu; [discriminate | reflexivity].
Defined.

End MobileMenuFacts.

(* ================================================================== *)
(** ** Loading the header and the footer *)

Section LoaderFacts.

Local Open Scope string_scope.

(** The chain of a component is fulfilled in every case: with the
    placeholder filled when the text arrived, with one error printed
    otherwise. *)
Lemma load_cases (c : Component) (fetched : Promise Response) (pg : LoaderPage) :
  match loaded fetched with
  | Some data => load c fetched pg = (Fulfilled tt, set_innerHTML c data pg)
  | None => exists err, load c fetched pg = (Fulfilled tt, console_error c err pg)
  end.
Proof.
  unfold load, loaded, then_, catch_.
  destruct fetched as [res | e]; [|eexists; reflexivity].
  destruct (ok res); cbn [negb]; [|eexists; reflexivity].
  destruct (text res) as [data | e]; [reflexivity | eexists; reflexivity].
Qed.

Lemma load_fulfilled (c : Component) (fetched : Promise Response) (pg : LoaderPage) :
  fst (load c fetched pg) = Fulfilled tt.
Proof.
  pose proof (load_cases c fetched pg) as H.
  destruct (loaded fetched); [rewrite H | destruct H as [err ->]]; reflexivity.
Qed.

Lemma load_calls (c : Component) (fetched : Promise Response) (pg : LoaderPage) :
  initializeSite_calls (snd (load c fetched pg)) = initializeSite_calls pg.
Proof.
  pose proof (load_cases c fetched pg) as H.
  destruct (loaded fetched); [rewrite H | destruct H as [err ->]];
    destruct c; reflexivity.
Qed.

(** X7.  Whatever becomes of the two requests, in whichever order they
    settle, the promise of [loadHtmlComponents] is fulfilled and the
    [DOMContentLoaded] listener calls [initializeSite], once: a request
    that fails does not stop the site from being initialised. *)
Theorem X7_initializeSite_always_runs
    (header_first : bool) (fetch_header fetch_footer : Promise Response)
    (pg : LoaderPage) :
  fst (loadHtmlComponents header_first fetch_header fetch_footer pg) = Fulfilled tt
  /\ initializeSite_calls
       (onDOMContentLoaded header_first fetch_header fetch_footer pg)
     = S (initializeSite_calls pg).
Proof.
  assert (H : fst (loadHtmlComponents header_first fetch_header fetch_footer pg)
              = Fulfilled tt
              /\ initializeSite_calls
                   (snd (loadHtmlComponents header_first fetch_header fetch_footer pg))
                 = initializeSite_calls pg).
  { unfold loadHtmlComponents. destruct header_first.
    - pose proof (load_fulfilled Header fetch_header pg) as H1.
      pose proof (load_calls Header fetch_header pg) as C1.
      destruct (load Header fetch_header pg) as [h pg1]. cbn [fst snd] in *.
      pose proof (load_fulfilled Footer fetch_footer pg1) as H2.
      pose proof (load_calls Footer fetch_footer pg1) as C2.
      destruct (load Footer fetch_footer pg1) as [f pg2]. cbn [fst snd] in *.
      subst h f. split; [reflexivity | congruence].
    - pose proof (load_fulfilled Footer fetch_footer pg) as H1.
      pose proof (load_calls Footer fetch_footer pg) as C1.
      destruct (load Footer fetch_footer pg) as [f pg1]. cbn [fst snd] in *.
      pose proof (load_fulfilled Header fetch_header pg1) as H2.
      pose proof (load_calls Header fetch_header pg1) as C2.
      destruct (load Header fetch_header pg1) as [h pg2]. cbn [fst snd] in *.
      subst h f. split; [reflexivity | congruence]. }
  destruct H as [Hp Hc]. split; [exact Hp|].
  unfold onDOMContentLoaded.
  destruct (loadHtmlComponents header_first fetch_header fetch_footer pg) as [p pg1].
  cbn [fst snd] in *. subst p. cbn. rewrite Hc. reflexivity.
Qed.

(** What one chain leaves of the placeholders and of the console. *)
Lemma load_effect (c : Component) (fetched : Promise Response) (pg : LoaderPage) :
  let pg' := snd (load c fetched pg) in
  placeholder c pg' =
    match placeholder c pg, loaded fetched with
    | Some _, Some data => Some data
    | old, _ => old
    end
  /\ (forall c', c' <> c -> placeholder c' pg' = placeholder c' pg)
  /\ exists errs,
       console_errors pg' = console_errors pg ++ errs
       /\ length errs = failed fetched
       /\ Forall (fun e => fst e = String.append "Error loading "
                                     (String.append (component_name c) ":")) errs.
Proof.
  pose proof (load_cases c fetched pg) as H. cbv zeta. unfold failed.
  destruct (loaded fetched) as [data|].
  - rewrite H. cbn [snd]. split; [|split].
    + destruct c; cbn; [destruct (headerPlaceholder pg) | destruct (footerPlaceholder pg)];
        reflexivity.
    + intros c' Hc. destruct c, c'; try congruence; reflexivity.
    + exists []. rewrite app_nil_r. repeat split; [destruct c; reflexivity | constructor].
  - destruct H as [err ->]. cbn [snd]. split; [|split].
    + destruct c; cbn; [destruct (headerPlaceholder pg) | destruct (footerPlaceholder pg)];
        reflexivity.
    + intros c' Hc. destruct c, c'; try congruence; reflexivity.
    + eexists. split; [reflexivity|]. split; [reflexivity|].
      constructor; [reflexivity | constructor].
Qed.

(** X8.  After [loadHtmlComponents], in whichever order the requests
    settle: a placeholder that is on the page holds the text of its
    file when the response was [ok] and its text arrived, and holds
    what it held otherwise; a missing placeholder stays missing; and
    [console.error] has been called once for each file that did not
    arrive, and not for the others. *)
Theorem X8_loadHtmlComponents_effect
    (header_first : bool) (fetch_header fetch_footer : Promise Response)
    (pg : LoaderPage) :
  let pg' := snd (loadHtmlComponents header_first fetch_header fetch_footer pg) in
  headerPlaceholder pg' =
    match headerPlaceholder pg, loaded fetch_header with
    | Some _, Some data => Some data
    | old, _ => old
    end
  /\ footerPlaceholder pg' =
    match footerPlaceholder pg, loaded fetch_footer with
    | Some _, Some data => Some data
    | old, _ => old
    end
  /\ exists errs,
       console_errors pg' = console_errors pg ++ errs
       /\ length errs = failed fetch_header + failed fetch_footer.
Proof.
  cbv zeta. unfold loadHtmlComponents. destruct header_first.
  - destruct (load_effect Header fetch_header pg) as (P1 & O1 & e1 & C1 & L1 & _).
    destruct (load Header fetch_header pg) as [h pg1]. cbn [snd] in *.
    destruct (load_effect Footer fetch_footer pg1) as (P2 & O2 & e2 & C2 & L2 & _).
    destruct (load Footer fetch_footer pg1) as [f pg2]. cbn [snd] in *.
    specialize (O2 Header ltac:(discriminate)).
    specialize (O1 Footer ltac:(discriminate)).
    cbn [placeholder] in *.
    split; [rewrite O2; exact P1|]. split; [rewrite P2, O1; reflexivity|].
    exists (e1 ++ e2). rewrite C2, C1, <- app_assoc, length_app, L1, L2.
    split; reflexivity.
  - destruct (load_effect Footer fetch_footer pg) as (P1 & O1 & e1 & C1 & L1 & _).
    destruct (load Footer fetch_footer pg) as [f pg1]. cbn [snd] in *.
    destruct (load_effect Header fetch_header pg1) as (P2 & O2 & e2 & C2 & L2 & _).
    destruct (load Header fetch_header pg1) as [h pg2]. cbn [snd] in *.
    specialize (O2 Footer ltac:(discriminate)).
    specialize (O1 Header ltac:(discriminate)).
    cbn [placeholder] in *.
    split; [rewrite P2, O1; reflexivity|]. split; [rewrite O2; exact P1|].
    exists (e1 ++ e2). rewrite C2, C1, <- app_assoc, length_app, L1, L2.
    split; [reflexivity | lia].
Qed.

End LoaderFacts.

(* ================================================================== *)
(** ** The cursor follower on the page *)

Section CursorPageFacts.

Local Open Scope R_scope.

Lemma cursor_dispatch_box (lo hi : Vec.t R) (e : CursorEvent R) (pg : CursorPage R) :
  smoothing (cursorState pg) = 1 / 10 ->
  in_box lo hi (current (cursorState pg)) ->
  in_box lo hi (target (cursorState pg)) ->
  move_in_box lo hi e ->
  smoothing (cursorState (cursor_dispatch e pg)) = 1 / 10
  /\ in_box lo hi (current (cursorState (cursor_dispatch e pg)))
  /\ in_box lo hi (target (cursorState (cursor_dispatch e pg))).
Proof.
  intros Hs Hc Ht He.
  destruct e as [cx cy| | |]; cbn [cursor_dispatch cursorState];
    try (split; [exact Hs | split; assumption]).
  unfold animateCursor. cbn [smoothing current target].
  split; [exact Hs|]. split; [|exact Ht].
  unfold in_box in *. cbn [Vec.x Vec.y]. real_ops. rewrite Hs.
  destruct Hc as [[? ?] [? ?]], Ht as [[? ?] [? ?]]. split; lra.
Qed.

(** X9.  The indicator never leaves a rectangle that holds it, its
    target and every position that the pointer reports: through any
    pointer moves, frames and hovers, the smoothed position stays in
    the rectangle. *)
Theorem X9_cursor_stays_in_box
    (lo hi : Vec.t R) (evs : list (CursorEvent R)) (pg : CursorPage R) :
  smoothing (cursorState pg) = 1 / 10 ->
  in_box lo hi (current (cursorState pg)) ->
  in_box lo hi (target (cursorState pg)) ->
  Forall (move_in_box lo hi) evs ->
  in_box lo hi (current (cursorState (cursor_run evs pg))).
Proof.
  revert pg. induction evs as [|e evs IH]; intros pg Hs Hc Ht Hev.
  - exact Hc.
  - inversion Hev as [|e' evs' He Hrest]; subst.
    destruct (cursor_dispatch_box lo hi e pg Hs Hc Ht He) as (Hs' & Hc' & Ht').
    cbn [cursor_run fold_left].
    apply (IH (cursor_dispatch e pg) Hs' Hc' Ht' Hrest).
Qed.

Lemma X9_cursor_stays_in_box_witness :
  let pg := mkCursorPage (initial_cursorState 800 600) [] in
  let evs := [CursorFrame; CursorMouseMove 0 600; CursorFrame; CursorMouseEnter;
              CursorFrame; CursorMouseMove 800 0; CursorFrame] in
  in_box (Vec.mk 0 0) (Vec.mk 800 600) (current (cursorState (cursor_run evs pg))).
Proof.
  intros pg evs.
  apply X9_cursor_stays_in_box.
  - reflexivity.
  - unfold in_box. cbn. lra.
  - unfold in_box. cbn. lra.
  - repeat constructor; cbn; lra.
Defined.

(** X10.  An indicator that is on its target does not move: as long as
    the pointer reports nothing, every frame leaves the state as it
    is.  So it is from [setupCustomCursor] to the first [mousemove],
    the indicator at the centre of the window. *)
Theorem X10_cursor_at_rest (c : CursorState R) (k : nat) :
  current c = target c ->
  frames k c = c.
Proof.
  intros Hc. induction k as [|k IH]; [reflexivity|].
  rewrite frames_S, IH.
  unfold animateCursor. rewrite Hc.
  destruct c as [[tx ty] cur s]. cbn [target current smoothing Vec.x Vec.y] in *.
  subst cur. real_ops. f_equal. f_equal; lra.
Qed.

Lemma X10_cursor_at_rest_witness :
  frames 60 (initial_cursorState 1024 768) = initial_cursorState 1024 768.
Proof. apply X10_cursor_at_rest. reflexivity. Defined.

End CursorPageFacts.

Section CursorHover.

Context {T : Type} {N : Number T}.
Local Open Scope string_scope.

(** X11.  The indicator has the class [hover] exactly when the last
    [mouseenter] or [mouseleave] on a link or a button was a
    [mouseenter]; the listeners do not count how many elements the
    pointer is over.  Pointer moves and frames do not change it. *)
Theorem X11_hover_last_event (evs : list (CursorEvent T)) (pg : CursorPage T) :
  ClassList.contains "hover" (cursor_classList (cursor_run evs pg))
  = last_is_enter (ClassList.contains "hover" (cursor_classList pg)) evs.
Proof.
  revert pg. induction evs as [|e evs IH]; intros pg; [reflexivity|].
  cbn [cursor_run fold_left]. fold (cursor_run evs (cursor_dispatch e pg)).
  rewrite IH.
  destruct e; cbn [cursor_dispatch cursor_classList last_is_enter];
    try reflexivity.
  - rewrite contains_add_same. reflexivity.
  - rewrite contains_remove_same. reflexivity.
Qed.

End CursorHover.

(* ================================================================== *)
(** ** What the particle field keeps *)

Section FieldFacts.

Local Open Scope R_scope.








(** *** The invariant of the field *)


















(** *** The field in a window that stays roomy *)









End FieldFacts.

Section FramePaints.

Context {T : Type} {N : Number T}.

Lemma update_disc (s : Surface T) (p : Particle.t T) (g : Rng T) :
  snd (fst (update s p g)) = draw s (fst (fst (update s p g))).
Proof. rewrite update_settle. reflexivity. Qed.

Lemma update_all_discs (s : Surface T) (ps : list (Particle.t T)) (g : Rng T) :
  snd (fst (update_all s ps g)) = map (draw s) (fst (fst (update_all s ps g)))
  /\ length (fst (fst (update_all s ps g))) = length ps.
Proof.
  revert g. induction ps as [|p ps IH]; intros g; [split; reflexivity|].
  cbn [update_all]. unfold bind, ret.
  pose proof (update_disc s p g) as Hd.
  destruct (update s p g) as [pd g1]. cbn [fst snd] in *.
  destruct (IH g1) as [IH1 IH2].
  destruct (update_all s ps g1) as [r g2]. cbn [fst snd map length] in *.
  rewrite Hd, IH1, IH2. split; reflexivity.
Qed.

(** X15.  A frame paints one disc for each particle, in the order of
    the collection: the disc of a particle is at the position that the
    update has just given it, of its radius and hue, with lightness 70%
    in dark mode and 50% otherwise.  The frame keeps the number of
    particles. *)
Theorem X15_frame_paints_updated_particles (st : State T) :
  painted (animate st)
  = map (fun p => mkDisc (Particle.hue p)
                    (if isDark (surface st) then L70 else L50)
                    (Particle.x p) (Particle.y p) (Particle.radius p))
      (particles (animate st))
  /\ length (particles (animate st)) = length (particles st).
Proof.
  unfold animate.
  destruct (update_all_discs (surface st) (particles st) (rng st)) as [H1 H2].
  destruct (update_all _ _ _) as [r g]. cbn [fst snd painted particles] in *.
  rewrite H1. split; [reflexivity | exact H2].
Qed.

End FramePaints.

(* ================================================================== *)
(** ** The timer of the resize handling *)

Section ResizeTimer.

Context {T : Type} {N : Number T}.

(** No timer is pending, or one, which [resizeTimer] names. *)
Lemma dispatch_resize (st : State T) (w h : T) :
  (timers st = []
   \/ exists id due, timers st = [(id, due)] /\ resizeTimer st = Some id) ->
  let st' := dispatch (Resize w h) st in
  timers st' = [(next_timer st, clock st + 250)]
  /\ resizeTimer st' = Some (next_timer st)
  /\ calls st' = calls st ++ [(clock st, CallResizeCanvas)].
Proof.
  intros H st'. subst st'.
  unfold dispatch, on_resize, resizeCanvas, set_window, set_timers.
  cbn [timers resizeTimer clock calls next_timer].
  split; [|split; reflexivity].
  destruct H as [H | (id & due & H & Hid)]; rewrite H.
  - destruct (resizeTimer st); reflexivity.
  - rewrite Hid. cbn [clearTimeout filter fst]. rewrite Nat.eqb_refl. reflexivity.
Qed.

Lemma advance_pending (t : nat) (st : State T) :
  (timers st = []
   \/ exists id due, timers st = [(id, due)] /\ resizeTimer st = Some id) ->
  timers (advance t st) = []
  \/ exists id due, timers (advance t st) = [(id, due)]
                    /\ resizeTimer (advance t st) = Some id.
Proof.
  intros [H | (id & due & H & Hid)].
  - left. rewrite advance_idle by (left; exact H). exact H.
  - destruct (Nat.lt_ge_cases t due) as [Hlt | Hge].
    + right. exists id, due.
      rewrite advance_idle by (right; exists id, due; auto). auto.
    + left. apply (advance_fires st id due t H Hge).
Qed.

(** X16.  At most one timer of the resize handling is pending at any
    time, and [resizeTimer] holds its id: started with no timer, after
    any events at any times the queue is empty or holds one timer, the
    one that the next [resize] clears. *)
Theorem X16_one_pending_timer (st : State T) (evs : list (nat * Event T)) :
  timers st = [] ->
  let st' := run evs st in
  timers st' = []
  \/ exists id due, timers st' = [(id, due)] /\ resizeTimer st' = Some id.
Proof.
  intros H0.
  assert (H : timers st = []
              \/ exists id due, timers st = [(id, due)] /\ resizeTimer st = Some id)
    by (left; exact H0).
  clear H0. revert st H. induction evs as [|[t e] evs IH]; intros st H; [exact H|].
  cbv zeta. rewrite run_cons. apply IH.
  unfold step. cbn [fst snd].
  pose proof (advance_pending t st H) as Ha.
  destruct (is_resize e) eqn:He.
  - destruct e as [w h| | | |]; try discriminate.
    right. destruct (dispatch_resize (advance t st) w h Ha) as (H1 & H2 & _).
    eauto.
  - destruct (dispatch_other_host e (advance t st) He) as (_ & H1 & H2).
    rewrite H1, H2. exact Ha.
Qed.


(** A [resize] that comes when the timer is due: the timer runs first,
    and the event sets the next one. *)
Lemma step_resize_due (st : State T) (id due t : nat) (w h : T) :
  timers st = [(id, due)] -> resizeTimer st = Some id -> due <= t ->
  let st' := step st (t, Resize w h) in
  (exists id', timers st' = [(id', t + 250)] /\ resizeTimer st' = Some id')
  /\ calls st' = calls st ++ [(due, CallResizeCanvas); (due, CallInitParticles);
                              (t, CallResizeCanvas)].
Proof.
  intros Htm Hid Hle st'. subst st'. unfold step. cbn [fst snd].
  destruct (advance_fires st id due t Htm Hle) as (Hf1 & Hf2).
  destruct (dispatch_resize (advance t st) w h (or_introl Hf1)) as (H1 & H2 & H3).
  change (clock (advance t st)) with t in H1, H3.
  split; [eauto|]. rewrite H3, Hf2, <- app_assoc. reflexivity.
Qed.

Lemma step_other_due (st : State T) (id due t : nat) (e : Event T) :
  is_resize e = false ->
  timers st = [(id, due)] -> due <= t ->
  timers (step st (t, e)) = []
  /\ calls (step st (t, e))
     = calls st ++ [(due, CallResizeCanvas); (due, CallInitParticles)].
Proof.
  intros He Htm Hle. unfold step. cbn [fst snd].
  destruct (advance_fires st id due t Htm Hle) as (Hf1 & Hf2).
  destruct (dispatch_other_host e (advance t st) He) as (Hc & Ht & _).
  rewrite Hc, Ht. auto.
Qed.

Lemma settled_far (tl : nat) (ts : list nat) :
  Forall (fun x => tl + 250 <= x) ts ->
  settled (tl :: ts) = tl :: settled ts.
Proof.
  intros H. destruct ts as [|x ts]; [reflexivity|].
  inversion H; subst. cbn [settled].
  assert (Hx : Nat.ltb x (tl + 250) = false) by (apply Nat.ltb_ge; lia).
  rewrite Hx. reflexivity.
Qed.

Lemma run_settled (evs : list (nat * Event T)) :
  (forall (st : State T) (t0 t : nat),
      timers st = [] ->
      ordered t0 evs = true ->
      Forall (fun x => x + 250 <= t) (resize_times evs) ->
      times_of CallInitParticles (calls (advance t (run evs st)))
      = times_of CallInitParticles (calls st)
          ++ map (fun x => x + 250) (settled (resize_times evs)))
  /\ (forall (st : State T) (tl t : nat),
      (exists id, timers st = [(id, tl + 250)] /\ resizeTimer st = Some id) ->
      ordered tl evs = true ->
      tl + 250 <= t ->
      Forall (fun x => x + 250 <= t) (resize_times evs) ->
      times_of CallInitParticles (calls (advance t (run evs st)))
      = times_of CallInitParticles (calls st)
          ++ map (fun x => x + 250) (settled (tl :: resize_times evs))).
Proof.
  induction evs as [|[t' e] rest [IHq IHp]].
  - split.
    + intros st t0 t Htm _ _. cbn [run fold_left resize_times filter map settled].
      rewrite advance_idle by (left; exact Htm).
      change (calls (set_clock t st)) with (calls st).
      rewrite app_nil_r. reflexivity.
    + intros st tl t (id & Htm & _) _ Ht _.
      cbn [run fold_left resize_times filter map settled].
      destruct (advance_fires st id (tl + 250) t Htm Ht) as (_ & Hc).
      rewrite Hc, times_of_app. reflexivity.
  - split.
    + intros st t0 t Htm Hord Hall.
      cbn [ordered fst] in Hord. apply andb_prop in Hord as [_ Hord].
      rewrite run_cons. destruct (is_resize e) eqn:He.
      * destruct e as [w h| | | |]; try discriminate.
        unfold resize_times in Hall |- *. cbn [filter snd is_resize map fst] in Hall |- *.
        fold (resize_times rest) in Hall |- *.
        inversion Hall as [|x l Hx Hrest]; subst.
        destruct (step_resize st t' w h (or_introl Htm)) as (Htm' & Hid' & _ & Hcalls).
        rewrite (IHp (step st (t', Resize w h)) t' t
                   (ex_intro _ _ (conj Htm' Hid')) Hord Hx Hrest).
        rewrite Hcalls, times_of_app. cbn [times_of filter map snd].
        rewrite app_nil_r. reflexivity.
      * assert (Hrt : resize_times ((t', e) :: rest) = resize_times rest).
        { unfold resize_times. cbn [filter snd]. rewrite He. reflexivity. }
        rewrite Hrt in *.
        destruct (step_other_idle st t' e He (or_introl Htm)) as (Hcalls & Htm' & _).
        rewrite Htm in Htm'.
        rewrite (IHq (step st (t', e)) t' t Htm' Hord Hall), Hcalls. reflexivity.
    + intros st tl t (id & Htm & Hid) Hord Ht Hall.
      cbn [ordered fst] in Hord. apply andb_prop in Hord as [Hle Hord].
      apply Nat.leb_le in Hle.
      rewrite run_cons. destruct (is_resize e) eqn:He.
      * destruct e as [w h| | | |]; try discriminate.
        unfold resize_times in Hall |- *. cbn [filter snd is_resize map fst] in Hall |- *.
        fold (resize_times rest) in Hall |- *.
        inversion Hall as [|x l Hx Hrest]; subst.
        destruct (Nat.lt_ge_cases t' (tl + 250)) as [Hlt | Hge].
        -- destruct (step_resize st t' w h) as (Htm' & Hid' & _ & Hcalls).
           { right. exists id, (tl + 250). auto. }
           rewrite (IHp (step st (t', Resize w h)) t' t
                      (ex_intro _ _ (conj Htm' Hid')) Hord Hx Hrest).
           rewrite Hcalls, times_of_app. cbn [times_of filter map snd].
           rewrite app_nil_r.
           change (settled (tl :: t' :: resize_times rest))
             with (if Nat.ltb t' (tl + 250) then settled (t' :: resize_times rest)
                   else tl :: settled (t' :: resize_times rest)).
           apply Nat.ltb_lt in Hlt. rewrite Hlt. reflexivity.
        -- destruct (step_resize_due st id (tl + 250) t' w h Htm Hid Hge)
             as (Hpend & Hcalls).
           rewrite (IHp (step st (t', Resize w h)) t' t Hpend Hord Hx Hrest).
           rewrite Hcalls, times_of_app. cbn [times_of filter map snd fst].
           change (settled (tl :: t' :: resize_times rest))
             with (if Nat.ltb t' (tl + 250) then settled (t' :: resize_times rest)
                   else tl :: settled (t' :: resize_times rest)).
           apply Nat.ltb_ge in Hge. rewrite Hge.
           cbn [map]. rewrite <- app_assoc. reflexivity.
      * assert (Hrt : resize_times ((t', e) :: rest) = resize_times rest).
        { unfold resize_times. cbn [filter snd]. rewrite He. reflexivity. }
        rewrite Hrt in *.
        destruct (Nat.lt_ge_cases t' (tl + 250)) as [Hlt | Hge].
        -- destruct (step_other_idle st t' e He) as (Hcalls & Htm' & Hid').
           { right. exists id, (tl + 250). auto. }
           rewrite Htm in Htm'. rewrite Hid in Hid'.
           rewrite (IHp (step st (t', e)) tl t (ex_intro _ _ (conj Htm' Hid'))
                      (ordered_weaken tl t' rest Hle Hord) Ht Hall), Hcalls.
           reflexivity.
        -- destruct (step_other_due st id (tl + 250) t' e He Htm Hge) as (Htm' & Hcalls).
           rewrite (IHq (step st (t', e)) t' t Htm' Hord Hall).
           rewrite Hcalls, times_of_app. cbn [times_of filter map snd fst].
           rewrite settled_far.
           ++ cbn [map]. rewrite <- app_assoc. reflexivity.
           ++ eapply Forall_impl; [|apply (ordered_resize_times t' rest Hord)].
              cbn. intros x Hx. lia.
Qed.

(** X17.  [initParticles] is called once for each [resize] after which
    the window stays as it is for 250 ms, 250 ms after that [resize],
    and at no other time: in a run of events in the order of their
    times, started with no timer pending and watched until 250 ms
    after its last [resize], the calls of [initParticles] are at
    t + 250 for each [resize] time t that is the last or that the next
    [resize] follows by 250 ms or more. *)
Theorem X17_one_init_per_settled_resize
    (evs : list (nat * Event T)) (st : State T) (t : nat) :
  timers st = [] ->
  ordered (clock st) evs = true ->
  Forall (fun x => x + 250 <= t) (resize_times evs) ->
  times_of CallInitParticles (calls (advance t (run evs st)))
  = times_of CallInitParticles (calls st)
      ++ map (fun x => x + 250) (settled (resize_times evs)).
Proof.
  intros Htm Hord Hall.
  apply (proj1 (run_settled evs) st (clock st) t Htm Hord Hall).
Qed.


End ResizeTimer.

Section ResizeTimerExamples.

Lemma X16_one_pending_timer_witness :
  let st := mkState 1024%R 768%R
              (mkSurface 1024%R 768%R (Mouse.mk None None) false)
              [] None 0 [] 0 (mkRng (fun _ => (1 / 2)%R) 0) [] [] in
  let st' := run [(5, Resize 1000%R 700%R); (9, Resize 990%R 700%R); (300, Frame);
                  (310, Resize 980%R 700%R)] st in
  timers st' = []
  \/ exists id due, timers st' = [(id, due)] /\ resizeTimer st' = Some id.
Proof.
  intros st. apply (X16_one_pending_timer st). reflexivity.
Defined.

Lemma X17_one_init_per_settled_resize_witness :
  let st := mkState 1024%R 768%R
              (mkSurface 1024%R 768%R (Mouse.mk None None) false)
              [] None 0 [] 0 (mkRng (fun _ => (1 / 2)%R) 0) [] [] in
  let evs := [(10, Resize 1000%R 700%R); (100, Resize 990%R 700%R); (200, Frame);
              (400, Resize 980%R 700%R); (649, Resize 970%R 700%R);
              (899, Resize 960%R 700%R); (2000, Resize 950%R 700%R)] in
  times_of CallInitParticles (calls (advance 2250 (run evs st)))
  = [350; 899; 1149; 2250].
Proof.
  intros st evs.
  etransitivity.
  - apply (X17_one_init_per_settled_resize evs st 2250);
      [reflexivity | reflexivity | repeat constructor].
  - reflexivity.
Defined.

End ResizeTimerExamples.

(* ================================================================== *)
(** ** The repulsion and the friction *)

Section RepulsionDirection.

Local Open Scope R_scope.

(** [Math.atan2 (y, x)] is the angle of the point (x, y): its cosine
    and its sine, times the distance of the point from the origin, are
    x and y. *)
Lemma Ratan2_polar (x y : R) :
  let d := R_sqrt.sqrt (x * x + y * y) in
  Rtrigo_def.cos (RealNum.Ratan2 y x) * d = x
  /\ Rtrigo_def.sin (RealNum.Ratan2 y x) * d = y.
Proof.
  intros d. unfold RealNum.Ratan2.
  assert (Hs : forall z, 0 < R_sqrt.sqrt (1 + z²)).
  { intros z. apply sqrt_lt_R0. unfold Rsqr. nra. }
  assert (Hss : forall z, R_sqrt.sqrt (1 + z²) * R_sqrt.sqrt (1 + z²) = 1 + z * z).
  { intros z. rewrite sqrt_sqrt; [reflexivity | unfold Rsqr; nra]. }
  destruct (Rlt_dec 0 x) as [Hx | Hx].
  - set (z := y / x). set (s := R_sqrt.sqrt (1 + z²)).
    assert (Hd : d = x * s).
    { unfold d. apply sqrt_lem_1; [nra | |].
      - apply Rmult_le_pos; [lra | left; apply Hs].
      - replace (x * s * (x * s)) with (x * x * (s * s)) by ring.
        unfold s. rewrite Hss. unfold z. field. lra. }
    rewrite cos_atan, sin_atan. fold z s. rewrite Hd.
    pose proof (Hs z) as Hsz. fold s in Hsz.
    split; [field; lra | unfold z; field; lra].
  - destruct (Rlt_dec x 0) as [Hx' | Hx'].
    + set (z := y / x). set (s := R_sqrt.sqrt (1 + z²)).
      assert (Hd : d = - x * s).
      { unfold d. apply sqrt_lem_1; [nra | |].
        - apply Rmult_le_pos; [lra | left; apply Hs].
        - replace (- x * s * (- x * s)) with (x * x * (s * s)) by ring.
          unfold s. rewrite Hss. unfold z. field. lra. }
      pose proof (Hs z) as Hsz. fold s in Hsz.
      destruct (Rle_dec 0 y).
      * rewrite neg_cos, neg_sin, cos_atan, sin_atan. fold z s. rewrite Hd.
        split; [field; lra | unfold z; field; lra].
      * unfold Rminus. rewrite cos_plus, sin_plus, cos_neg, sin_neg, cos_PI, sin_PI.
        rewrite cos_atan, sin_atan. fold z s. rewrite Hd.
        split; [field; lra | unfold z; field; lra].
    + assert (x = 0) by lra. subst x.
      assert (Hd : d = Rabs y).
      { unfold d. replace (0 * 0 + y * y) with (Rsqr y) by (unfold Rsqr; ring).
        apply sqrt_Rsqr_abs. }
      rewrite Hd.
      destruct (Rlt_dec 0 y).
      * rewrite cos_PI2, sin_PI2, Rabs_right by lra. lra.
      * destruct (Rlt_dec y 0).
        -- rewrite cos_neg, sin_neg, cos_PI2, sin_PI2, Rabs_left by lra. lra.
        -- assert (y = 0) by lra. subst y. rewrite Rabs_R0. lra.
Qed.

(** X18.  The repulsion pushes the particle straight away from the
    pointer.  With the pointer at a distance dist of the particle,
    0 < dist < 100, the velocity gains the vector from the pointer to
    the particle, (dx, dy), scaled to the length 2 * (100 - dist) / 100:
    velocity.x gains (dx / dist) * ((100 - dist) / 100) * 2, and
    velocity.y the same with dy. *)
Theorem X18_repulsion_pushes_away (m : Mouse.t R) (p : Particle.t R) (mx my : R) :
  Mouse.x m = Some mx -> Mouse.y m = Some my ->
  let dx := Particle.x p - mx in
  let dy := Particle.y p - my in
  let dist := R_sqrt.sqrt (dx * dx + dy * dy) in
  0 < dist -> dist < 100 ->
  repel m p
  = Vec.mk (Vec.x (Particle.velocity p) + (dx / dist) * ((100 - dist) / 100) * 2)
           (Vec.y (Particle.velocity p) + (dy / dist) * ((100 - dist) / 100) * 2).
Proof.
  intros Hx Hy dx dy dist Hpos Hlt.
  unfold repel, repelRadius, maxForce. rewrite Hx, Hy. real_ops.
  fold dx dy. fold dist.
  replace (100 / 1) with 100 by lra. replace (2 / 1) with 2 by lra.
  apply Rltb_true in Hlt. rewrite Hlt.
  destruct (Ratan2_polar dx dy) as [Hc Hs]. fold dist in Hc, Hs.
  f_equal; f_equal; f_equal; f_equal.
  - rewrite <- Hc at 2. field. lra.
  - rewrite <- Hs at 2. field. lra.
Qed.

Lemma X18_repulsion_pushes_away_witness :
  let m := Mouse.mk (Some 0) (Some 0) in
  let p := Particle.mk 30 40 1 (Vec.mk 0 0) 0 in
  let dist := R_sqrt.sqrt ((30 - 0) * (30 - 0) + (40 - 0) * (40 - 0)) in
  repel m p
  = Vec.mk (0 + ((30 - 0) / dist) * ((100 - dist) / 100) * 2)
           (0 + ((40 - 0) / dist) * ((100 - dist) / 100) * 2).
Proof.
  intros m p dist.
  assert (Hd : dist = 50).
  { unfold dist. apply sqrt_lem_1; lra. }
  apply (X18_repulsion_pushes_away m p 0 0 eq_refl eq_refl);
    cbn [Particle.x Particle.y p]; fold dist; rewrite Hd; lra.
Defined.





End RepulsionDirection.
